(** * VibeSync front end: the wizard controller, the upload validator,
      the variation picker and the HTTP client.

    A shallow embedding of
      - src/frontend/src/lib/api.ts            (the HTTP client),
      - src/frontend/src/app/page.tsx          (component [Home], the step controller),
      - the [VideoUpload] and [VariationPicker] components,
    followed by the properties of the specification that concern them.

    Asynchronous handlers are embedded as finite interaction programs
    ([Effects.prog]): a tree of React state updates and of requests to the
    browser (fetch, object URLs, media metadata), with JavaScript exceptions
    and [try]/[catch].  A program is run against a [World] that answers every
    request; theorems quantify over all worlds. *)

From Stdlib Require Import String Ascii List Bool ZArith QArith Qround Lia Lqa DecimalString.
Import ListNotations.

#[local] Open Scope list_scope.
#[local] Open Scope string_scope.

(* ================================================================== *)
(** * JavaScript values used by the front end *)
(* ================================================================== *)

Module Js.

(** A thrown value (a rejected promise carries one): an [Error] instance
    with its [message], or anything else.  [e instanceof Error ? e.message : d]
    is [message_or]. *)
Inductive thrown : Type :=
| Error (message : string)
| NotAnError.

Definition message_or (e : thrown) (d : string) : string :=
  match e with
  | Error m => m
  | NotAnError => d
  end.

(** [x || d] on a possibly undefined string: [undefined] and the empty
    string are falsy. *)
Definition or_else (x : option string) (d : string) : string :=
  match x with
  | None => d
  | Some s => if String.eqb s "" then d else s
  end.

(** The value of [HTMLMediaElement.duration]: a finite number of seconds
    (every binary64 value is a rational), [Infinity] for an unbounded
    stream, or [NaN]. *)
Inductive number : Type :=
| Num (q : Q)
| Infinity
| NaN.

(** [x > m] for a finite [m]. *)
Definition gt (x : number) (m : Q) : bool :=
  match x with
  | Num q => negb (Qle_bool q m)
  | Infinity => true
  | NaN => false
  end.

(** [Math.round]: the nearest integer, ties towards +Infinity. *)
Inductive rounded : Type :=
| Whole (z : Z)
| RInfinity
| RNaN.

Definition Math_round (x : number) : rounded :=
  match x with
  | Num q => Whole (Qfloor (q + (1 # 2)))
  | Infinity => RInfinity
  | NaN => RNaN
  end.

(** The decimal numeral of an integer. *)
Definition string_of_Z (z : Z) : string :=
  NilZero.string_of_int (Z.to_int z).

(** [rounds_to x c]: the integer [c] rounds to the binary64 number [x]
    (an integer above 2^53).  With [x = m * 2^e] for a 53-bit [m], the
    numbers that round to [x] lie between the midpoints to its two
    neighbours, the midpoints included when [m] is even; the neighbour
    below is half as far when [m] is 2^52.  The bounds are doubled to stay
    in the integers. *)
Definition rounds_to (x c : Z) : bool :=
  let e := (Z.log2 x - 52)%Z in
  let m := Z.shiftr x e in
  let above := (2 ^ e)%Z in
  let below := if (m =? 2 ^ 52)%Z then (2 ^ (e - 1))%Z else (2 ^ e)%Z in
  if Z.even m then ((2 * x - below <=? 2 * c) && (2 * c <=? 2 * x + above))%Z
  else ((2 * x - below <? 2 * c) && (2 * c <? 2 * x + above))%Z.

(** The shortest decimal that rounds to [x]: digits are dropped from the
    right as long as one of the two multiples of [10^j] around [x] still
    rounds to [x]; of two that do, the nearer one is taken, the even one
    on a tie. *)
Fixpoint shortest_from (rounds : nat) (x j : Z) : Z :=
  match rounds with
  | O => x
  | S rounds' =>
      let pow := (10 ^ j)%Z in
      let lo := ((x / pow) * pow)%Z in
      let hi := (lo + pow)%Z in
      match rounds_to x lo, rounds_to x hi with
      | true, true =>
          if (x - lo <? hi - x)%Z then lo
          else if (hi - x <? x - lo)%Z then hi
          else if Z.even (lo / pow) then lo else hi
      | true, false => lo
      | false, true => hi
      | false, false => shortest_from rounds' x (j - 1)
      end
  end.

Definition shortest (x : Z) : Z :=
  let n := String.length (string_of_Z x) in
  shortest_from n x (Z.of_nat n - 1).

Fixpoint strip_zeros (s : string) : string :=
  match s with
  | EmptyString => EmptyString
  | String c r =>
      match strip_zeros r with
      | EmptyString => if Ascii.eqb c "0" then EmptyString else String c EmptyString
      | r' => String c r'
      end
  end.

(** [d.ddde+n] for a numeral of more than 21 digits. *)
Definition exponent_form (text : string) : string :=
  let e := string_of_Z (Z.of_nat (String.length text) - 1) in
  match strip_zeros text with
  | EmptyString => text
  | String d EmptyString => String d ("e+" ++ e)
  | String d rest => String d ("." ++ rest ++ "e+" ++ e)
  end.

(** [Number::toString] of an integer-valued number, as a template literal
    prints it: up to 2^53 every integer is a number and is printed in
    full; above, the digits are those of the shortest decimal that rounds
    to the number, followed by zeros, and in exponent form from 10^21
    on. *)
Definition Number_toString (z : Z) : string :=
  if (Z.abs z <=? 2 ^ 53)%Z then string_of_Z z
  else
    let text := string_of_Z (shortest (Z.abs z)) in
    let shown := if Nat.leb (String.length text) 21 then text else exponent_form text in
    if (z <? 0)%Z then "-" ++ shown else shown.

Definition string_of_rounded (r : rounded) : string :=
  match r with
  | Whole z => Number_toString z
  | RInfinity => "Infinity"
  | RNaN => "NaN"
  end.

(** A [File]: name, declared MIME type, size in bytes. *)
Record File : Type := mkFile {
  name : string;
  type : string;
  size : N
}.

(** [xs.includes(x)] on an array of strings. *)
Definition includes (xs : list string) (x : string) : bool :=
  existsb (String.eqb x) xs.

(** ** Untyped JSON

    What [res.json()] yields for a body the client gives no type to.  A
    number is kept as the text JavaScript prints for it, which is all the
    client uses of it ("0" for both zeros). *)
#[warnings="-register-all"]
Inductive json : Type :=
| JNull
| JBool (b : bool)
| JNumber (shown : string)
| JString (s : string)
| JArray (items : list json)
| JObject (members : list (string * json)).

(** The value of an own property of a parsed object: of two members with
    the same key the later one stays. *)
Fixpoint member (key : string) (members : list (string * json)) : option json :=
  match members with
  | [] => None
  | (k, v) :: rest =>
      match member key rest with
      | Some later => Some later
      | None => if String.eqb k key then Some v else None
      end
  end.

(** The text of the [TypeError] of a property read on [null] (V8's; the
    text is the engine's). *)
Definition null_detail_message : string :=
  "Cannot read properties of null (reading 'detail')".

(** [v.detail]: a [TypeError] on [null]; [undefined] on a boolean, a
    number, a string, an array, and on an object without that member. *)
Definition detail_of (v : json) : thrown + option json :=
  match v with
  | JNull => inl (Error null_detail_message)
  | JObject members => inr (member "detail" members)
  | _ => inr None
  end.

(** [ToBoolean]: [null], [false], zero and the empty string are falsy. *)
Definition truthy (v : json) : bool :=
  match v with
  | JNull => false
  | JBool b => b
  | JNumber shown => negb (String.eqb shown "0")
  | JString s => negb (String.eqb s "")
  | JArray _ => true
  | JObject _ => true
  end.

(** [x || d] for a possibly undefined [x]. *)
Definition or_value (x : option json) (d : json) : json :=
  match x with
  | None => d
  | Some v => if truthy v then v else d
  end.

(** [ToString], as [new Error(v)] applies it to its argument: an array is
    joined with commas, a [null] element giving the empty string; an
    object is "[object Object]". *)
Fixpoint to_string (v : json) : string :=
  match v with
  | JNull => "null"
  | JBool true => "true"
  | JBool false => "false"
  | JNumber shown => shown
  | JString s => s
  | JArray items =>
      (fix join (l : list json) : string :=
         match l with
         | [] => ""
         | x :: rest =>
             let shown := match x with JNull => "" | _ => to_string x end in
             match rest with
             | [] => shown
             | _ => shown ++ "," ++ join rest
             end
         end) items
  | JObject _ => "[object Object]"
  end.

(** ** binary64 arithmetic

    A finite number is [m * 2^e], kept with [m] odd (zero as [0 * 2^0]),
    so that equal numbers are equal terms.  The sign of zero is not kept:
    the sums below start from [+0], and a sum is [-0] only when both of
    its terms are. *)
Inductive double : Type :=
| Finite (m e : Z)
| PlusInfinity
| MinusInfinity
| NotANumber.

Fixpoint odd_part (p : positive) : positive * Z :=
  match p with
  | xO p' => let '(o, k) := odd_part p' in (o, (k + 1)%Z)
  | _ => (p, 0%Z)
  end.

Definition normal (m e : Z) : double :=
  match m with
  | Z0 => Finite 0 0
  | Zpos p => let '(o, k) := odd_part p in Finite (Zpos o) (e + k)
  | Zneg p => let '(o, k) := odd_part p in Finite (Zneg o) (e + k)
  end.

(** [M / 2^shift] rounded to the nearest integer, to the even one on a
    tie. *)
Definition nearest_even (M shift : Z) : Z :=
  let q := (M / 2 ^ shift)%Z in
  let r := (M mod 2 ^ shift)%Z in
  let half := (2 ^ (shift - 1))%Z in
  if (r <? half)%Z then q
  else if (half <? r)%Z then (q + 1)%Z
  else if Z.even q then q else (q + 1)%Z.

(** The binary64 number nearest to [M * 2^e]: at most 53 bits are kept,
    none below 2^-1074, and the result overflows to an infinity from
    2^1024 on. *)
Definition binary64 (M e : Z) : double :=
  let excess := (Z.log2 (Z.abs M) + 1 - 53)%Z in
  let shift := Z.max 0 (Z.max excess (- 1074 - e)) in
  let M' := if (shift =? 0)%Z then M else nearest_even M shift in
  let e' := (e + shift)%Z in
  if (M' =? 0)%Z then Finite 0 0
  else if (1024 <=? Z.log2 (Z.abs M') + e')%Z then
    (if (M' <? 0)%Z then MinusInfinity else PlusInfinity)
  else normal M' e'.

(** The number an integer numeral denotes. *)
Definition of_Z (z : Z) : double := binary64 z 0.

(** [x + y] on numbers. *)
Definition add (x y : double) : double :=
  match x, y with
  | NotANumber, _ | _, NotANumber => NotANumber
  | PlusInfinity, MinusInfinity | MinusInfinity, PlusInfinity => NotANumber
  | PlusInfinity, _ | _, PlusInfinity => PlusInfinity
  | MinusInfinity, _ | _, MinusInfinity => MinusInfinity
  | Finite m1 e1, Finite m2 e2 =>
      let e := Z.min e1 e2 in
      binary64 (m1 * 2 ^ (e1 - e) + m2 * 2 ^ (e2 - e)) e
  end.

End Js.

(* ================================================================== *)
(** * api.ts: the types *)
(* ================================================================== *)

Module Types.

Record VideoSegment : Type := mkVideoSegment {
  start_seconds : Q;
  end_seconds : Q;
  energy : string;
  mood : string;
  visual_description : string;
  musical_suggestion : string
}.

Record AudioProfile : Type := mkAudioProfile {
  has_speech : bool;
  has_ambient_sound : bool;
  is_silent : bool;
  recommended_mix : string;
  mix_reasoning : string
}.

Record StyleSuggestion : Type := mkStyleSuggestion {
  label : string;
  modifier : string
}.

Record VideoAnalysis : Type := mkVideoAnalysis {
  bpm : Z;
  key : string;
  overall_mood : string;
  energy_arc : string;
  audio_profile : AudioProfile;
  segments : list VideoSegment;
  style_suggestions : list StyleSuggestion;
  primary_prompt : string;
  negative_prompt : string;
  reasoning : string
}.

Record MusicVariation : Type := mkMusicVariation {
  file_id : string;
  audio_url : string;
  style_label : string;
  duration_seconds : Q
}.

Record VariationsResult : Type := mkVariationsResult {
  variations : list MusicVariation
}.

Record MergeResult : Type := mkMergeResult {
  video_url : string;
  merge_duration_seconds : Q
}.

(** The body of the two credits endpoints, [{credits: integer}]. *)
Record CreditsData : Type := mkCreditsData {
  credits : Z
}.

(** The body of a failed request: the client reads it untyped.  The
    server's usual body is [{detail: "..."}], which [mkErrorBody] builds
    (without the member for [None]). *)
Definition ErrorBody : Type := Js.json.

Definition mkErrorBody (detail : option string) : ErrorBody :=
  match detail with
  | Some d => Js.JObject [("detail", Js.JString d)]
  | None => Js.JObject []
  end.

(** The object handed to [JSON.stringify] by [generateVariations]. *)
Record GenerateBody : Type := mkGenerateBody {
  gb_prompt : string;
  gb_negative_prompt : string;
  gb_mood : string;
  gb_bpm : Z;
  gb_style_suggestions : list StyleSuggestion
}.

End Types.

(* ================================================================== *)
(** * Requests to the browser, and programs over them *)
(* ================================================================== *)

Module Effects.
Import Js Types.

(** The five backend endpoints, indexed by the type their 2xx body is
    read at. *)
Inductive endpoint : Type -> Type :=
| VideoAnalyze : endpoint VideoAnalysis
| MusicGenerateVariations : endpoint VariationsResult
| MusicMerge : endpoint MergeResult
| CreditsBalance : endpoint CreditsData
| CreditsInitialize : endpoint CreditsData.

Definition path {T : Type} (ep : endpoint T) : string :=
  match ep with
  | VideoAnalyze => "/api/video/analyze"
  | MusicGenerateVariations => "/api/music/generate-variations"
  | MusicMerge => "/api/music/merge"
  | CreditsBalance => "/api/credits/balance"
  | CreditsInitialize => "/api/credits/initialize"
  end.

(** One entry of a [FormData]; [EntryJson segs] is the text
    [JSON.stringify(segs)]. *)
Inductive form_entry : Type :=
| EntryFile (f : File)
| EntryString (s : string)
| EntryJson (segs : list VideoSegment).

Inductive request_body : Type :=
| FormData (entries : list (string * form_entry))
| JsonText (b : GenerateBody).

(** The second argument of [fetch]. *)
Record fetch_init : Type := mkInit {
  method : string;
  headers : list (string * string);
  body : option request_body
}.

(** A response: [res.ok] and what [res.json()] settles to. *)
Inductive Response (T : Type) : Type :=
| ErrorStatus (json : thrown + ErrorBody)
| OkStatus (json : thrown + T).
Arguments ErrorStatus {T} json.
Arguments OkStatus {T} json.

Definition ok {T : Type} (res : Response T) : bool :=
  match res with
  | OkStatus _ => true
  | ErrorStatus _ => false
  end.

(** What the browser is asked for, indexed by the type of the answer.
    [Fetch] answers [inl e] when the promise rejects (network exception).
    [LoadedMetadata src] is the [loadedmetadata] event of a video element
    with that source: [Some d] when it fires with [video.duration = d],
    [None] when it never fires. *)
Inductive event : Type -> Type :=
| Fetch {T : Type} (ep : endpoint T) (init : fetch_init) : event (thrown + Response T)
| CreateObjectURL (f : File) : event string
| RevokeObjectURL (url : string) : event unit
| LoadedMetadata (src : string) : event (option number)
| ConsoleLog (tag : string) (arg : list StyleSuggestion) : event unit.

(** A performed request, as recorded in a trace. *)
Inductive effect : Type :=
| Performed {X : Type} (e : event X).

Definition World : Type := forall X : Type, event X -> nat -> X.

Section Prog.
Variable St : Type.

(** Programs over a component store [St]. *)
Inductive prog (A : Type) : Type :=
| Ret (a : A)
| Throw (e : thrown)
| Update (f : St -> St) (k : prog A)
| Vis {X : Type} (e : event X) (k : X -> prog A).

Arguments Ret {A} a.
Arguments Throw {A} e.
Arguments Update {A} f k.
Arguments Vis {A X} e k.

Fixpoint bind {A B : Type} (p : prog A) (k : A -> prog B) : prog B :=
  match p with
  | Ret a => k a
  | Throw e => Throw e
  | Update f p' => Update f (bind p' k)
  | Vis e h => Vis e (fun x => bind (h x) k)
  end.

(** [try { p } catch (e) { h e }]. *)
Fixpoint try_catch {A : Type} (p : prog A) (h : thrown -> prog A) : prog A :=
  match p with
  | Ret a => Ret a
  | Throw e => h e
  | Update f p' => Update f (try_catch p' h)
  | Vis e k => Vis e (fun x => try_catch (k x) h)
  end.

(** [await] of a promise that settles to [r]. *)
Definition await {A : Type} (r : thrown + A) : prog A :=
  match r with
  | inl e => Throw e
  | inr a => Ret a
  end.

Definition perform {X : Type} (e : event X) : prog X := Vis e Ret.

(** Calling an [async] function without awaiting it: a rejection of the
    returned promise reaches nobody. *)
Definition not_awaited (p : prog unit) : prog unit :=
  try_catch p (fun _ => Ret tt).

(** The result of running a program: the store at the end, the requests
    performed in order, and how the program completed. *)
Record outcome (A : Type) : Type := mkOutcome {
  final : St;
  trace : list effect;
  completion : thrown + A
}.
Arguments mkOutcome {A} final trace completion.
Arguments final {A} o.
Arguments trace {A} o.
Arguments completion {A} o.

(** [run w n p s]: run [p] from store [s]; [n] requests were performed
    before. *)
Fixpoint run {A : Type} (w : World) (n : nat) (p : prog A) (s : St) : outcome A :=
  match p with
  | Ret a => mkOutcome s [] (inr a)
  | Throw e => mkOutcome s [] (inl e)
  | Update f k => run w n k (f s)
  | Vis e k =>
      let r := run w (S n) (k (w _ e n)) s in
      mkOutcome (final r) (Performed e :: trace r) (completion r)
  end.

End Prog.

Arguments Ret {St A} a.
Arguments Throw {St A} e.
Arguments Update {St A} f k.
Arguments Vis {St A X} e k.
Arguments bind {St A B} p k.
Arguments try_catch {St A} p h.
Arguments await {St A} r.
Arguments perform {St X} e.
Arguments not_awaited {St} p.
Arguments mkOutcome {St A} final trace completion.
Arguments final {St A} o.
Arguments trace {St A} o.
Arguments completion {St A} o.
Arguments run {St A} w n p s.

Definition set {St : Type} (f : St -> St) : prog St unit := Update f (Ret tt).

(** A program that keeps no state, called from a component. *)
Fixpoint call {St A : Type} (p : prog unit A) : prog St A :=
  match p with
  | Ret a => Ret a
  | Throw e => Throw e
  | Update _ k => call k
  | Vis e k => Vis e (fun x => call (k x))
  end.

(** The network requests of a trace, in order: path and [fetch] options. *)
Definition fetches (t : list effect) : list (string * fetch_init) :=
  flat_map
    (fun eff =>
       match eff with
       | Performed e =>
           match e with
           | Fetch ep init => [(path ep, init)]
           | _ => []
           end
       end) t.

End Effects.

Declare Scope prog_scope.
Delimit Scope prog_scope with prog.
Notation "x <- p ;; k" := (Effects.bind p (fun x => k))
  (at level 100, p at next level, right associativity) : prog_scope.
Notation "p ;; k" := (Effects.bind p (fun _ => k))
  (at level 100, right associativity) : prog_scope.

#[local] Open Scope prog_scope.

(* ================================================================== *)
(** * api.ts: the five operations *)
(* ================================================================== *)

Module Api.
Import Js Types Effects.

(** The client keeps no state: its operations are programs over [unit]. *)
Definition io : Type -> Type := prog unit.

(** [await fetch(url, init)]. *)
Definition fetch {T : Type} (ep : endpoint T) (init : fetch_init) : io (Response T) :=
  r <- perform (Fetch ep init) ;; await r.

(** [await res.json().catch(() => ({ detail: d }))]. *)
Definition json_or_detail (json : thrown + ErrorBody) (d : string) : ErrorBody :=
  match json with
  | inl _ => mkErrorBody (Some d)
  | inr err => err
  end.

Definition analyzeVideo (file : File) (userToken : string) : io VideoAnalysis :=
  let formData := [("file", EntryFile file)] in
  res <- fetch VideoAnalyze
           (mkInit "POST" [("x-user-id", userToken)] (Some (FormData formData))) ;;
  match res with
  | ErrorStatus json =>
      let err := json_or_detail json "Analysis failed" in
      detail <- await (detail_of err) ;;
      Throw (Error (to_string (or_value detail (JString "Video analysis failed"))))
  | OkStatus json => await json
  end.

Definition generateVariations (prompt negativePrompt mood : string) (bpm : Z)
    (userToken : string) (styleSuggestions : list StyleSuggestion)
  : io VariationsResult :=
  res <- fetch MusicGenerateVariations
           (mkInit "POST"
              [("Content-Type", "application/json"); ("x-user-id", userToken)]
              (Some (JsonText
                       (mkGenerateBody prompt negativePrompt mood bpm styleSuggestions)))) ;;
  match res with
  | ErrorStatus json =>
      let err := json_or_detail json "Generation failed" in
      detail <- await (detail_of err) ;;
      Throw (Error (to_string (or_value detail (JString "Music generation failed"))))
  | OkStatus json => await json
  end.

Definition mergeVideoAudio (videoFile : File) (fileId mixMode : string)
    (segments : list VideoSegment) : io MergeResult :=
  let formData :=
    [("video", EntryFile videoFile);
     ("file_id", EntryString fileId);
     ("mix_mode", EntryString mixMode);
     ("segments_json", EntryJson segments)] in
  res <- fetch MusicMerge (mkInit "POST" [] (Some (FormData formData))) ;;
  match res with
  | ErrorStatus json =>
      let err := json_or_detail json "Merge failed" in
      detail <- await (detail_of err) ;;
      Throw (Error (to_string (or_value detail (JString "Video merge failed"))))
  | OkStatus json => await json
  end.

(** No [method] is given: the request is a GET. *)
Definition getCredits (userToken : string) : io Z :=
  res <- fetch CreditsBalance (mkInit "GET" [("x-user-id", userToken)] None) ;;
  match res with
  | ErrorStatus _ => Ret 0%Z
  | OkStatus json => data <- await json ;; Ret (credits data)
  end.

Definition initializeCredits (userToken : string) : io Z :=
  res <- fetch CreditsInitialize (mkInit "POST" [("x-user-id", userToken)] None) ;;
  match res with
  | ErrorStatus _ => Ret 0%Z
  | OkStatus json => data <- await json ;; Ret (credits data)
  end.

End Api.

(* ================================================================== *)
(** * The React state of the three stateful components *)
(* ================================================================== *)

Module State.
Import Js Types.

Inductive Step : Type :=
| upload | analyzing | edit | generating | pick | merging | done.

(** page.tsx, [Home]: one field per [useState], and the [userIdRef] ref. *)
Record Home : Type := mkHome {
  step : Step;
  videoFile : option File;
  videoUrl : string;
  analysis : option VideoAnalysis;
  prompt : string;
  negativePrompt : string;
  bpm : Z;
  variations : list MusicVariation;
  selectedVariation : option MusicVariation;
  mergedVideoUrl : string;
  error : string;
  credits : option Z;
  userIdRef : string
}.

Definition put_step (v : Step) (h : Home) : Home :=
  mkHome v (videoFile h) (videoUrl h) (analysis h) (prompt h) (negativePrompt h) (bpm h)
    (variations h) (selectedVariation h) (mergedVideoUrl h) (error h) (credits h) (userIdRef h).
Definition put_videoFile (v : option File) (h : Home) : Home :=
  mkHome (step h) v (videoUrl h) (analysis h) (prompt h) (negativePrompt h) (bpm h)
    (variations h) (selectedVariation h) (mergedVideoUrl h) (error h) (credits h) (userIdRef h).
Definition put_videoUrl (v : string) (h : Home) : Home :=
  mkHome (step h) (videoFile h) v (analysis h) (prompt h) (negativePrompt h) (bpm h)
    (variations h) (selectedVariation h) (mergedVideoUrl h) (error h) (credits h) (userIdRef h).
Definition put_analysis (v : option VideoAnalysis) (h : Home) : Home :=
  mkHome (step h) (videoFile h) (videoUrl h) v (prompt h) (negativePrompt h) (bpm h)
    (variations h) (selectedVariation h) (mergedVideoUrl h) (error h) (credits h) (userIdRef h).
Definition put_prompt (v : string) (h : Home) : Home :=
  mkHome (step h) (videoFile h) (videoUrl h) (analysis h) v (negativePrompt h) (bpm h)
    (variations h) (selectedVariation h) (mergedVideoUrl h) (error h) (credits h) (userIdRef h).
Definition put_negativePrompt (v : string) (h : Home) : Home :=
  mkHome (step h) (videoFile h) (videoUrl h) (analysis h) (prompt h) v (bpm h)
    (variations h) (selectedVariation h) (mergedVideoUrl h) (error h) (credits h) (userIdRef h).
Definition put_bpm (v : Z) (h : Home) : Home :=
  mkHome (step h) (videoFile h) (videoUrl h) (analysis h) (prompt h) (negativePrompt h) v
    (variations h) (selectedVariation h) (mergedVideoUrl h) (error h) (credits h) (userIdRef h).
Definition put_variations (v : list MusicVariation) (h : Home) : Home :=
  mkHome (step h) (videoFile h) (videoUrl h) (analysis h) (prompt h) (negativePrompt h) (bpm h)
    v (selectedVariation h) (mergedVideoUrl h) (error h) (credits h) (userIdRef h).
Definition put_selectedVariation (v : option MusicVariation) (h : Home) : Home :=
  mkHome (step h) (videoFile h) (videoUrl h) (analysis h) (prompt h) (negativePrompt h) (bpm h)
    (variations h) v (mergedVideoUrl h) (error h) (credits h) (userIdRef h).
Definition put_mergedVideoUrl (v : string) (h : Home) : Home :=
  mkHome (step h) (videoFile h) (videoUrl h) (analysis h) (prompt h) (negativePrompt h) (bpm h)
    (variations h) (selectedVariation h) v (error h) (credits h) (userIdRef h).
Definition put_error (v : string) (h : Home) : Home :=
  mkHome (step h) (videoFile h) (videoUrl h) (analysis h) (prompt h) (negativePrompt h) (bpm h)
    (variations h) (selectedVariation h) (mergedVideoUrl h) v (credits h) (userIdRef h).
Definition put_credits (v : option Z) (h : Home) : Home :=
  mkHome (step h) (videoFile h) (videoUrl h) (analysis h) (prompt h) (negativePrompt h) (bpm h)
    (variations h) (selectedVariation h) (mergedVideoUrl h) (error h) v (userIdRef h).

(** [VideoUpload]: its two [useState] cells. *)
Record VideoUpload : Type := mkVideoUpload {
  dragging : bool;
  validationError : string
}.

(** The [<audio>] element behind [audioRef], as far as the picker drives it. *)
Record Audio : Type := mkAudio {
  src : string;
  paused : bool
}.

(** [VariationPicker]: [playing], [selected], and [audioRef.current]. *)
Record VariationPicker : Type := mkVariationPicker {
  playing : option string;
  selected : string;
  audioRef : option Audio
}.

(** The store: the state of [Home] and of the two stateful views.  The
    cells of a view stay in the store while the view is not rendered;
    [VariationPicker.mount] gives the picker its initial cells when it is
    rendered anew. *)
Record Store : Type := mkStore {
  home : Home;
  videoUpload : VideoUpload;
  variationPicker : VariationPicker
}.

Definition over_home (f : Home -> Home) (s : Store) : Store :=
  mkStore (f (home s)) (videoUpload s) (variationPicker s).
Definition over_videoUpload (f : VideoUpload -> VideoUpload) (s : Store) : Store :=
  mkStore (home s) (f (videoUpload s)) (variationPicker s).
Definition over_variationPicker (f : VariationPicker -> VariationPicker) (s : Store) : Store :=
  mkStore (home s) (videoUpload s) (f (variationPicker s)).

End State.

(* ================================================================== *)
(** * VideoUpload: the upload validator *)
(* ================================================================== *)

Module VideoUpload.
Import Js Types Effects State.

Definition MAX_SIZE_MB : Z := 50.
Definition MAX_DURATION_S : Z := 30.
Definition ALLOWED_TYPES : list string :=
  ["video/mp4"; "video/quicktime"; "video/webm"; "video/x-msvideo"].

Definition setValidationError (v : string) : prog Store unit :=
  set (over_videoUpload (fun u => mkVideoUpload (dragging u) v)).
Definition setDragging (v : bool) : prog Store unit :=
  set (over_videoUpload (fun u => mkVideoUpload v (validationError u))).

(** [file.size / (1024 * 1024)]: a division by a power of two, exact in
    binary64 for every size a file can have, hence the rational quotient. *)
Definition size_in_MB (file : File) : Q :=
  inject_Z (Z.of_N (size file)) / inject_Z (1024 * 1024).

Definition validate (file : File) : option string :=
  if negb (includes ALLOWED_TYPES (type file)) then
    Some "Unsupported format. Use MP4, MOV, WebM, or AVI."
  else if negb (Qle_bool (size_in_MB file) (inject_Z MAX_SIZE_MB)) then
    Some ("File too large. Maximum is " ++ string_of_Z MAX_SIZE_MB ++ "MB.")
  else None.

(** The text set by [checkDuration] for an overlong video. *)
Definition too_long_message (duration : number) : string :=
  "Video is " ++ string_of_rounded (Math_round duration) ++ "s. Maximum is "
    ++ string_of_Z MAX_DURATION_S ++ "s.".

(** [checkDuration]: a detached video element is pointed at an object URL
    of the file; the rest runs in its [onloadedmetadata] handler. *)
Definition checkDuration (onUpload : File -> prog Store unit) (file : File)
  : prog Store unit :=
  video_src <- perform (CreateObjectURL file) ;;
  loaded <- perform (LoadedMetadata video_src) ;;
  match loaded with
  | None => Ret tt
  | Some duration =>
      perform (RevokeObjectURL video_src) ;;
      if gt duration (inject_Z MAX_DURATION_S) then
        setValidationError (too_long_message duration)
      else onUpload file
  end.

(** [if (err)]: [null] and the empty string are falsy. *)
Definition truthy (err : option string) : option string :=
  match err with
  | None => None
  | Some e => if String.eqb e "" then None else Some e
  end.

Definition handleFile (onUpload : File -> prog Store unit) (file : File)
  : prog Store unit :=
  setValidationError "" ;;
  let err := validate file in
  match truthy err with
  | Some e => setValidationError e
  | None => checkDuration onUpload file
  end.

(** [handleDrop]: the first dropped file, if any. *)
Definition handleDrop (onUpload : File -> prog Store unit) (files : list File)
  : prog Store unit :=
  setDragging false ;;
  match files with
  | file :: _ => handleFile onUpload file
  | [] => Ret tt
  end.

End VideoUpload.

(* ================================================================== *)
(** * VariationPicker *)
(* ================================================================== *)

Module VariationPicker.
Import Js Types Effects State.

Definition setPlaying (v : option string) : prog Store unit :=
  set (over_variationPicker (fun p => mkVariationPicker v (selected p) (audioRef p))).
Definition setSelected (v : string) : prog Store unit :=
  set (over_variationPicker (fun p => mkVariationPicker (playing p) v (audioRef p))).

(** Writes through [audioRef.current]. *)
Definition over_audio (f : Audio -> Audio) : prog Store unit :=
  set (over_variationPicker
         (fun p => mkVariationPicker (playing p) (selected p) (option_map f (audioRef p)))).
Definition audio_pause : prog Store unit :=
  over_audio (fun a => mkAudio (src a) true).
Definition audio_set_src (url : string) : prog Store unit :=
  over_audio (fun a => mkAudio url (paused a)).
Definition audio_play : prog Store unit :=
  over_audio (fun a => mkAudio (src a) false).

(** The state of a freshly mounted picker: [playing] is [null], [selected]
    is [variations[0]?.file_id || ""], and the ref holds the rendered
    [<audio>] element. *)
Definition initial (variations : list MusicVariation) : VariationPicker :=
  mkVariationPicker None
    (or_else (option_map file_id (nth_error variations 0)) "")
    (Some (mkAudio "" true)).

Definition mount (variations : list MusicVariation) (s : Store) : Store :=
  over_variationPicker (fun _ => initial variations) s.

(** [playing === id] for [playing : string | null]. *)
Definition playing_is (p : option string) (id : string) : bool :=
  match p with
  | Some x => String.eqb x id
  | None => false
  end.

(** Handlers read the state of the render they were created in, [c]. *)
Definition togglePlay (c : Store) (variation : MusicVariation) : prog Store unit :=
  match audioRef (variationPicker c) with
  | None => Ret tt
  | Some _ =>
      if playing_is (playing (variationPicker c)) (file_id variation) then
        audio_pause ;;
        setPlaying None
      else
        audio_set_src (audio_url variation) ;;
        audio_play ;;
        setPlaying (Some (file_id variation)) ;;
        setSelected (file_id variation)
  end.

Definition onEnded : prog Store unit := setPlaying None.

Definition handleSelect (variations : list MusicVariation)
    (onPick : MusicVariation -> prog Store unit) (c : Store) : prog Store unit :=
  match find (fun v => String.eqb (file_id v) (selected (variationPicker c))) variations with
  | Some v => onPick v
  | None => Ret tt
  end.

End VariationPicker.

(* ================================================================== *)
(** * page.tsx: the step controller *)
(* ================================================================== *)

Module Page.
Import Js Types Effects State.

Definition setStep (v : Step) : prog Store unit := set (over_home (put_step v)).
Definition setVideoFile (v : option File) : prog Store unit := set (over_home (put_videoFile v)).
Definition setVideoUrl (v : string) : prog Store unit := set (over_home (put_videoUrl v)).
Definition setAnalysis (v : option VideoAnalysis) : prog Store unit :=
  set (over_home (put_analysis v)).
Definition setPrompt (v : string) : prog Store unit := set (over_home (put_prompt v)).
Definition setNegativePrompt (v : string) : prog Store unit :=
  set (over_home (put_negativePrompt v)).
Definition setBpm (v : Z) : prog Store unit := set (over_home (put_bpm v)).
Definition setVariations (v : list MusicVariation) : prog Store unit :=
  set (over_home (put_variations v)).
Definition setSelectedVariation (v : option MusicVariation) : prog Store unit :=
  set (over_home (put_selectedVariation v)).
Definition setMergedVideoUrl (v : string) : prog Store unit :=
  set (over_home (put_mergedVideoUrl v)).
Definition setError (v : string) : prog Store unit := set (over_home (put_error v)).
Definition setCredits (v : option Z) : prog Store unit := set (over_home (put_credits v)).

(** The state of [Home] at its first render, for an identity token. *)
Definition initial (userId : string) : Home :=
  mkHome upload None "" None "" "" 120 [] None "" "" None userId.

(** The mount effect: [initializeCredits(userIdRef.current).then(setCredits)]. *)
Definition onMount (c : Store) : prog Store unit :=
  not_awaited (n <- call (Api.initializeCredits (userIdRef (home c))) ;; setCredits (Some n)).

Definition refreshCredits (c : Store) : prog Store unit :=
  n <- call (Api.getCredits (userIdRef (home c))) ;;
  setCredits (Some n).

Definition handleUpload (c : Store) (file : File) : prog Store unit :=
  setVideoFile (Some file) ;;
  url <- perform (CreateObjectURL file) ;;
  setVideoUrl url ;;
  setError "" ;;
  setStep analyzing ;;
  try_catch
    (result <- call (Api.analyzeVideo file (userIdRef (home c))) ;;
     perform (ConsoleLog "[VibeSync] Gemini style_suggestions:" (style_suggestions result)) ;;
     setAnalysis (Some result) ;;
     setPrompt (primary_prompt result) ;;
     setNegativePrompt (negative_prompt result) ;;
     setBpm (Types.bpm result) ;;
     setStep edit)
    (fun e =>
       setError (message_or e "Analysis failed") ;;
       setStep upload).

Definition handleGenerate (c : Store) : prog Store unit :=
  match analysis (home c) with
  | None => Ret tt
  | Some a =>
      setError "" ;;
      setStep generating ;;
      try_catch
        (result <- call (Api.generateVariations
                             (prompt (home c)) (negativePrompt (home c)) (overall_mood a)
                             (bpm (home c)) (userIdRef (home c)) (style_suggestions a)) ;;
         setVariations (Types.variations result) ;;
         refreshCredits c ;;
         setStep pick)
        (fun e =>
           setError (message_or e "Generation failed") ;;
           setStep edit)
  end.

Definition handlePickVariation (c : Store) (variation : MusicVariation)
  : prog Store unit :=
  match videoFile (home c), analysis (home c) with
  | Some file, Some a =>
      setError "" ;;
      setSelectedVariation (Some variation) ;;
      setStep merging ;;
      try_catch
        (result <- call (Api.mergeVideoAudio file (file_id variation) "social" (segments a)) ;;
         setMergedVideoUrl (video_url result) ;;
         setStep done)
        (fun e =>
           setError (message_or e "Merge failed") ;;
           setStep pick)
  | _, _ => Ret tt
  end.

Definition handleReset : prog Store unit :=
  setStep upload ;;
  setVideoFile None ;;
  setVideoUrl "" ;;
  setAnalysis None ;;
  setPrompt "" ;;
  setNegativePrompt "" ;;
  setBpm 120 ;;
  setVariations [] ;;
  setSelectedVariation None ;;
  setMergedVideoUrl "" ;;
  setError "" ;;
  Ret tt.

(** The props [Home] passes to its views in the render of store [c].  The
    handlers are [async]: a view calls them without awaiting. *)
Definition onUpload (c : Store) (file : File) : prog Store unit :=
  not_awaited (handleUpload c file).
Definition onGenerate (c : Store) : prog Store unit :=
  not_awaited (handleGenerate c).
Definition onPick (c : Store) (variation : MusicVariation) : prog Store unit :=
  not_awaited (handlePickVariation c variation).

(** The file input and the drop zone of the upload view. *)
Definition upload_intent (c : Store) (file : File) : prog Store unit :=
  VideoUpload.handleFile (onUpload c) file.

(** The merge button of the picker view. *)
Definition confirm_pick (c : Store) : prog Store unit :=
  VariationPicker.handleSelect (variations (home c)) (onPick c) c.

(** A user intent handled from the render of store [s], in world [w]. *)
Definition dispatch (w : World) (handler : Store -> prog Store unit) (s : Store)
  : outcome Store unit :=
  run w 0 (handler s) s.

End Page.

(* ================================================================== *)
(** * page.tsx: the progress stepper *)
(* ================================================================== *)

Module Progress.
Import State.

(** The entries of the stepper: label and icon. *)
Definition PROGRESS_STEPS : list (string * string) :=
  [("Upload", "upload"); ("Edit", "edit"); ("Generate", "music"); ("Done", "check")].

Definition getProgressIndex (step : Step) : nat :=
  match step with
  | upload => 0
  | analyzing => 0
  | edit => 1
  | generating => 2
  | pick => 2
  | merging => 3
  | done => 3
  end.

(** How the stepper draws entry [i]: completed below the index, active at
    it. *)
Definition completed (step : Step) (i : nat) : bool := Nat.ltb i (getProgressIndex step).
Definition active (step : Step) (i : nat) : bool := Nat.eqb i (getProgressIndex step).

End Progress.

(* ================================================================== *)
(** * LoadingState: the timers of the substep list *)
(* ================================================================== *)

Module LoadingState.
Import Js.

Definition defaults : double := of_Z 2200.

(** [stepDurations?.[i] ?? defaults], in milliseconds. *)
Definition duration_at (stepDurations : option (list double)) (i : nat) : double :=
  match stepDurations with
  | None => defaults
  | Some ds =>
      match nth_error ds i with
      | Some d => d
      | None => defaults
      end
  end.

(** The [for] loop of the effect, with [count] rounds left: each round adds
    the duration of substep [i] to [cumulative] and registers a timer that
    sets the active index to [i + 1] after [cumulative] milliseconds. *)
Fixpoint loop (stepDurations : option (list double)) (count i : nat)
    (cumulative : double) : list (double * nat) :=
  match count with
  | O => []
  | S count' =>
      let cumulative' := add cumulative (duration_at stepDurations i) in
      (cumulative', S i) :: loop stepDurations count' (S i) cumulative'
  end.

(** The timers the effect registers, in order: delay and the index each
    one sets.  Nothing is registered without substeps
    ([!substeps?.length]). *)
Definition timers (substeps : option (list string))
    (stepDurations : option (list double)) : list (double * nat) :=
  match substeps with
  | None => []
  | Some labels =>
      if Nat.eqb (List.length labels) 0 then []
      else loop stepDurations (List.length labels - 1) 0 (of_Z 0)
  end.

End LoadingState.

(* ================================================================== *)
(** * AudioPlayer: the download links *)
(* ================================================================== *)

(** The string methods the player uses. *)
Module JsString.

(** [s.split(sep)] for a one-character separator. *)
Fixpoint split (sep : ascii) (s : string) : list string :=
  match s with
  | EmptyString => [EmptyString]
  | String c r =>
      if Ascii.eqb c sep then EmptyString :: split sep r
      else
        match split sep r with
        | h :: t => String c h :: t
        | [] => [String c EmptyString]
        end
  end.

(** The first position at which [sub] occurs in [s]. *)
Fixpoint find_from (sub s : string) : option nat :=
  if String.prefix sub s then Some O
  else
    match s with
    | EmptyString => None
    | String _ r => option_map S (find_from sub r)
    end.

(** [s.indexOf(sub)]: the position, or -1. *)
Definition indexOf (s sub : string) : Z :=
  match find_from sub s with
  | Some i => Z.of_nat i
  | None => (-1)%Z
  end.

(** [s.substring(a, b)]: both ends are clamped to [0, s.length] and
    swapped when out of order. *)
Definition substring (s : string) (a b : Z) : string :=
  let len := Z.of_nat (String.length s) in
  let a' := Z.max 0 (Z.min a len) in
  let b' := Z.max 0 (Z.min b len) in
  let lo := Z.min a' b' in
  let hi := Z.max a' b' in
  String.substring (Z.to_nat lo) (Z.to_nat (hi - lo)) s.

(** [xs[i]]: [undefined] outside the array. *)
Definition at_index {A : Type} (xs : list A) (i : Z) : option A :=
  if (i <? 0)%Z then None else nth_error xs (Z.to_nat i).

End JsString.

Module AudioPlayer.
Import Js.

Definition urlParts (audioUrl : string) : list string :=
  JsString.split "/"%char audioUrl.

(** [urlParts[urlParts.length - 2] || ""]. *)
Definition fileId (audioUrl : string) : string :=
  let parts := urlParts audioUrl in
  or_else (JsString.at_index parts (Z.of_nat (List.length parts) - 2)) "".

(** [audioUrl.substring(0, audioUrl.indexOf("/api"))]. *)
Definition apiBase (audioUrl : string) : string :=
  JsString.substring audioUrl 0 (JsString.indexOf audioUrl "/api").

(** The [href] of the two download links. *)
Definition download_href (audioUrl format : string) : string :=
  apiBase audioUrl ++ "/api/music/download/" ++ fileId audioUrl ++ "/" ++ format.
Definition mp3_href (audioUrl : string) : string := download_href audioUrl "mp3".
Definition wav_href (audioUrl : string) : string := download_href audioUrl "wav".

End AudioPlayer.

(* ================================================================== *)
(** * Vocabulary of the properties *)
(* ================================================================== *)

Import Js Types Effects State.
Import VideoUpload VariationPicker.

(** [d > m], read as a proposition. *)
Definition exceeds (d : number) (m : Q) : Prop :=
  match d with
  | Num q => (m < q)%Q
  | Infinity => True
  | NaN => False
  end.

(** The reason [validate] gives for a type outside [ALLOWED_TYPES]. *)
Definition unsupported_format : string :=
  "Unsupported format. Use MP4, MOV, WebM, or AVI.".

(** The requests of [checkDuration] up to the metadata event. *)
Definition probe_trace (w : World) (n : nat) (file : File) : list effect :=
  let video_src := w _ (CreateObjectURL file) n in
  [Performed (CreateObjectURL file);
   Performed (LoadedMetadata video_src);
   Performed (RevokeObjectURL video_src)].

(** The stores a mounted picker goes through, for the list [vs] it was
    given: it is mounted, its cards are clicked ([togglePlay] on a member
    of the list), and playback ends. *)
Inductive picker_reachable (vs : list MusicVariation) : Store -> Prop :=
| reach_mount (s : Store) :
    picker_reachable vs (mount vs s)
| reach_togglePlay (w : World) (n : nat) (s : Store) (v : MusicVariation) :
    picker_reachable vs s ->
    In v vs ->
    picker_reachable vs (final (run w n (togglePlay s v) s))
| reach_onEnded (w : World) (n : nat) (s : Store) :
    picker_reachable vs s ->
    picker_reachable vs (final (run w n onEnded s)).

(** What holds of the picker's state all along. *)
Definition picker_inv (vs : list MusicVariation) (p : State.VariationPicker) : Prop :=
  audioRef p <> None
  /\ (selected p = "" \/ exists v, In v vs /\ file_id v = selected p)
  /\ (forall id, playing p = Some id -> selected p = id).

(* ================================================================== *)
(** * Sample data: files, an analysis, variations, and worlds *)
(* ================================================================== *)

Module Sample.

Definition clip : File := mkFile "clip.mp4" "video/mp4" (10 * 1024 * 1024).
Definition notes : File := mkFile "notes.pdf" "application/pdf" (60 * 1024 * 1024).
Definition long_clip : File := mkFile "long.webm" "video/webm" 1024.

Definition the_analysis : VideoAnalysis :=
  mkVideoAnalysis 128 "C minor" "tense" "rising"
    (mkAudioProfile true false false "duck" "speech present")
    [mkVideoSegment 0 (12 # 1) "high" "tense" "a chase" "driving drums"]
    [mkStyleSuggestion "Cinematic" "orchestral"]
    "dark cinematic pulse" "vocals" "fast cuts".

Definition v1 : MusicVariation := mkMusicVariation "f-1" "/audio/f-1/track" "Original" (12 # 1).
Definition v2 : MusicVariation := mkMusicVariation "f-2" "/audio/f-2/track" "Cinematic" (12 # 1).
Definition v3 : MusicVariation := mkMusicVariation "f-3" "/audio/f-3/track" "Lo-fi" (12 # 1).
Definition three : list MusicVariation := [v1; v2; v3].

Definition fresh : Store :=
  mkStore (Page.initial "user-1") (mkVideoUpload false "")
    (VariationPicker.initial []).

(** The store of the edit step, after [clip] was analysed. *)
Definition editing : Store :=
  mkStore
    (mkHome edit (Some clip) "blob:clip" (Some the_analysis)
       "dark cinematic pulse" "vocals" 140 [] None "" "" (Some 3%Z) "user-1")
    (mkVideoUpload false "")
    (VariationPicker.initial []).

(** The store of the pick step, with three variations. *)
Definition picking : Store :=
  mkStore (put_step pick (put_variations three (home editing)))
    (mkVideoUpload false "")
    (VariationPicker.initial three).

(** What the browser answers apart from the network: object URLs are
    numbered, and video metadata loads with the given duration. *)
Definition local (duration : option number) (X : Type) (e : event X) (n : nat)
    (network : forall T : Type, endpoint T -> thrown + Response T) : X :=
  match e in event X return X with
  | Fetch ep _ => network _ ep
  | CreateObjectURL _ => "blob:" ++ string_of_Z (Z.of_nat n)
  | RevokeObjectURL _ => tt
  | LoadedMetadata _ => duration
  | ConsoleLog _ _ => tt
  end.

(** No network: every [fetch] rejects. *)
Definition offline (duration : option number) : World :=
  fun X e n => local duration X e n (fun _ _ => inl (Error "Failed to fetch")).

(** A backend that serves every endpoint. *)
Definition serving (T : Type) (ep : endpoint T) : thrown + Response T :=
  match ep in endpoint T return thrown + Response T with
  | VideoAnalyze => inr (OkStatus (inr the_analysis))
  | MusicGenerateVariations => inr (OkStatus (inr (mkVariationsResult three)))
  | MusicMerge => inr (OkStatus (inr (mkMergeResult "/exports/out.mp4" (12 # 1))))
  | CreditsBalance => inr (OkStatus (inr (mkCreditsData 2)))
  | CreditsInitialize => inr (OkStatus (inr (mkCreditsData 3)))
  end.

Definition online (duration : option number) : World :=
  fun X e n => local duration X e n serving.

(** As [serving], except that the credits endpoints answer as given. *)
Definition serving_but_credits (answer : thrown + Response CreditsData)
    (T : Type) (ep : endpoint T) : thrown + Response T :=
  match ep in endpoint T return thrown + Response T with
  | CreditsBalance => answer
  | CreditsInitialize => answer
  | ep' => serving _ ep'
  end.

Definition credits_world (answer : thrown + Response CreditsData) : World :=
  fun X e n => local (Some (Num (12 # 1))) X e n (serving_but_credits answer).

(** A backend that refuses every request with a 4xx/5xx and a detail. *)
Definition refusing (msg : string) : World :=
  fun X e n =>
    local (Some (Num (12 # 1))) X e n
      (fun _ _ => inr (ErrorStatus (inr (mkErrorBody (Some msg))))).

End Sample.

(* ================================================================== *)
(** * Vocabulary of the further properties: a session of the wizard *)
(* ================================================================== *)

(** The position of a step in the wizard,
    upload, analyzing, edit, generating, pick, merging, done. *)
Definition position (step : Step) : nat :=
  match step with
  | upload => 0
  | analyzing => 1
  | edit => 2
  | generating => 3
  | pick => 4
  | merging => 5
  | done => 6
  end.

(** The steps the wizard rests in between two intents. *)
Definition durable (step : Step) : Prop :=
  step = upload \/ step = edit \/ step = pick \/ step = done.

(** What the user can do, view by view. *)
Inductive intent : Type :=
| ChooseFile (file : File)
| ChangePrompt (v : string)
| ChangeNegativePrompt (v : string)
| ChangeBpm (v : Z)
| Generate
| NewVideo
| TogglePlay (variation : MusicVariation)
| PlaybackEnded
| ConfirmPick
| BackToPrompt
| CreateAnother
| DismissError.

(** The view that offers an intent is on screen: [Home] renders the upload
    view at step [upload], the editor at [edit] when there is an analysis,
    the picker at [pick], the result with its reset button at [done] when
    there is a merged URL, and the error banner when [error] is not
    empty. *)
Definition enabled (s : Store) (i : intent) : Prop :=
  match i with
  | ChooseFile _ => step (home s) = upload
  | ChangePrompt _ | ChangeNegativePrompt _ | ChangeBpm _ | Generate | NewVideo =>
      step (home s) = edit /\ analysis (home s) <> None
  | TogglePlay v => step (home s) = pick /\ In v (variations (home s))
  | PlaybackEnded | ConfirmPick | BackToPrompt => step (home s) = pick
  | CreateAnother => step (home s) = done /\ mergedVideoUrl (home s) <> ""
  | DismissError => error (home s) <> ""
  end.

(** The callback behind each intent, in the render of store [c]. *)
Definition handler (i : intent) (c : Store) : prog Store unit :=
  match i with
  | ChooseFile file => Page.upload_intent c file
  | ChangePrompt v => Page.setPrompt v
  | ChangeNegativePrompt v => Page.setNegativePrompt v
  | ChangeBpm v => Page.setBpm v
  | Generate => Page.onGenerate c
  | NewVideo => Page.handleReset
  | TogglePlay v => togglePlay c v
  | PlaybackEnded => onEnded
  | ConfirmPick => Page.confirm_pick c
  | BackToPrompt => Page.setStep edit
  | CreateAnother => Page.handleReset
  | DismissError => Page.setError ""
  end.

(** The stores of a session with identity token [userId], seen between
    intents: [Home] starts in its initial state, its mount effect runs, a
    view that comes on screen starts from fresh cells, and each enabled
    intent runs its handler to the end, in any world. *)
Inductive session (userId : string) : Store -> Prop :=
| session_start (u : State.VideoUpload) (p : State.VariationPicker) :
    session userId (mkStore (Page.initial userId) u p)
| session_mounted (w : World) (s : Store) :
    session userId s ->
    session userId (final (Page.dispatch w Page.onMount s))
| session_view (s : Store) :
    session userId s ->
    session userId
      (over_videoUpload (fun _ => mkVideoUpload false "")
         (mount (variations (home s)) s))
| session_intent (w : World) (s : Store) (i : intent) :
    session userId s ->
    enabled s i ->
    session userId (final (Page.dispatch w (handler i) s)).

(** What holds of [Home] all along a session. *)
Definition home_inv (userId : string) (h : Home) : Prop :=
  durable (step h)
  /\ userIdRef h = userId
  /\ (step h <> upload -> videoFile h <> None /\ analysis h <> None)
  /\ (step h = done ->
      exists v, selectedVariation h = Some v /\ In v (variations h)).

(** The request [handleGenerate] sends for the composition in store [s]. *)
Definition generate_request (s : Store) (a : VideoAnalysis) : string * fetch_init :=
  ("/api/music/generate-variations",
   mkInit "POST"
     [("Content-Type", "application/json"); ("x-user-id", userIdRef (home s))]
     (Some (JsonText
              (mkGenerateBody (prompt (home s)) (negativePrompt (home s))
                 (overall_mood a) (bpm (home s)) (style_suggestions a))))).

Definition balance_request (s : Store) : string * fetch_init :=
  ("/api/credits/balance",
   mkInit "GET" [("x-user-id", userIdRef (home s))] None).

Definition merge_request (file : File) (a : VideoAnalysis) (id : string)
  : string * fetch_init :=
  ("/api/music/merge",
   mkInit "POST" []
     (Some (FormData
              [("video", EntryFile file);
               ("file_id", EntryString id);
               ("mix_mode", EntryString "social");
               ("segments_json", EntryJson (segments a))]))).

(** The picker shows a variation as playing only while the audio element
    plays the URL of a listed variation with that identifier. *)
Definition playing_inv (vs : list MusicVariation) (p : State.VariationPicker) : Prop :=
  forall id,
    playing p = Some id ->
    selected p = id
    /\ exists v a,
         In v vs /\ file_id v = id
         /\ audioRef p = Some a /\ src a = audio_url v /\ paused a = false.




(** The time in milliseconds after which substep [k] of the loading view
    becomes active, for the whole-millisecond durations [given]: the
    durations of the substeps before it added up, one that is not given
    counting 2200. *)
Fixpoint sum_durations (given : list Z) (i count : nat) : Z :=
  match count with
  | O => 0%Z
  | S count' => (nth i given 2200 + sum_durations given (S i) count')%Z
  end.

Definition elapsed (given : list Z) (k : nat) : Z := sum_durations given 0 k.

(** The integer nearest to [q], the upper one of two. *)
Definition nearest_integer (q : Q) (z : Z) : Prop :=
  (inject_Z z - (1 # 2) <= q)%Q /\ (q < inject_Z z + (1 # 2))%Q.

(** No character of [s] is a slash. *)
Fixpoint slash_free (s : string) : bool :=
  match s with
  | EmptyString => true
  | String c r => negb (Ascii.eqb c "/"%char) && slash_free r
  end.

(* ================================================================== *)
(** * Running composed programs *)
(* ================================================================== *)

Section RunFacts.
Context {St : Type}.
Variable w : World.

(** Sequencing: the second program starts where the first one stopped,
    unless the first one threw. *)
Lemma run_bind {A B : Type} (p : prog St A) (k : A -> prog St B) :
  forall n s,
    run w n (bind p k) s =
    let r := run w n p s in
    match completion r with
    | inl e => mkOutcome (final r) (trace r) (inl e)
    | inr a =>
        let r' := run w (n + length (trace r)) (k a) (final r) in
        mkOutcome (final r') (trace r ++ trace r')%list (completion r')
    end.
Proof.
  induction p as [a | e | f p' IH | X e h IH]; intros n s; simpl.
  - rewrite Nat.add_0_r. now destruct (run w n (k a) s).
  - reflexivity.
  - apply IH.
  - rewrite IH; simpl.
    destruct (completion (run w (S n) (h (w X e n)) s)); simpl.
    + reflexivity.
    + now rewrite Nat.add_succ_r.
Qed.

(** [try]/[catch]: the handler runs from the store the body left behind. *)
Lemma run_try_catch {A : Type} (p : prog St A) (h : thrown -> prog St A) :
  forall n s,
    run w n (try_catch p h) s =
    let r := run w n p s in
    match completion r with
    | inr a => mkOutcome (final r) (trace r) (inr a)
    | inl e =>
        let r' := run w (n + length (trace r)) (h e) (final r) in
        mkOutcome (final r') (trace r ++ trace r')%list (completion r')
    end.
Proof.
  induction p as [a | e | f p' IH | X e k IH]; intros n s; simpl.
  - reflexivity.
  - rewrite Nat.add_0_r. now destruct (run w n (h e) s).
  - apply IH.
  - rewrite IH; simpl.
    destruct (completion (run w (S n) (k (w X e n)) s)); simpl.
    + now rewrite Nat.add_succ_r.
    + reflexivity.
Qed.

(** A stateless program called from a component leaves the store alone and
    behaves as it does on its own. *)
Lemma run_call {A : Type} (p : prog unit A) :
  forall n (s : St),
    run w n (call p) s =
    let r := run w n p tt in
    mkOutcome s (trace r) (completion r).
Proof.
  induction p as [a | e | f p' IH | X e k IH]; intros n s; simpl.
  - reflexivity.
  - reflexivity.
  - rewrite IH. now destruct (f tt).
  - now rewrite IH.
Qed.

Lemma run_set (f : St -> St) n s :
  run w n (set f) s = mkOutcome (f s) [] (inr tt).
Proof. reflexivity. Qed.

Lemma run_not_awaited (p : prog St unit) n s :
  run w n (not_awaited p) s =
  let r := run w n p s in
  mkOutcome (final r) (trace r) (inr tt).
Proof.
  unfold not_awaited. rewrite run_try_catch. simpl.
  destruct (completion (run w n p s)) as [e | []]; simpl.
  - now rewrite app_nil_r.
  - reflexivity.
Qed.

End RunFacts.

Arguments Api.analyzeVideo : simpl never.
Arguments Api.generateVariations : simpl never.
Arguments Api.mergeVideoAudio : simpl never.
Arguments Api.getCredits : simpl never.
Arguments Api.initializeCredits : simpl never.
Arguments Number_toString : simpl never.

(** Runs a composed program down to the runs of the client operations. *)
Ltac run_down :=
  repeat (rewrite ?run_try_catch, ?run_bind, ?run_call, ?run_set; cbn).

(** Two stores are equal when their components are. *)
Ltac store_eq s :=
  let h := fresh "h" in
  destruct s as [h ? ?]; destruct h; reflexivity.

(* ================================================================== *)
(** * The embedding on concrete inputs *)
(* ================================================================== *)

Example validate_clip : validate Sample.clip = None.
Proof. reflexivity. Qed.

Example validate_one_byte_over :
  validate (mkFile "big.mp4" "video/mp4" (50 * 1024 * 1024 + 1))
  = Some "File too large. Maximum is 50MB.".
Proof. reflexivity. Qed.

Example validate_type_before_size :
  validate Sample.notes = Some "Unsupported format. Use MP4, MOV, WebM, or AVI.".
Proof. reflexivity. Qed.

Example round_half_up : Math_round (Num (61 # 2)) = Whole 31.
Proof. reflexivity. Qed.

Example too_long_message_31 :
  too_long_message (Num (61 # 2)) = "Video is 31s. Maximum is 30s.".
Proof. reflexivity. Qed.

(** Above 2^53 a number is printed with its shortest digits, and in
    exponent form from 10^21 on. *)
Example Number_toString_large :
  Number_toString (2 ^ 53) = "9007199254740992"
  /\ Number_toString (2 ^ 53 + 2) = "9007199254740994"
  /\ Number_toString (2 ^ 60) = "1152921504606847000"
  /\ Number_toString (10 ^ 21 - 2 ^ 17) = "999999999999999900000"
  /\ Number_toString (10 ^ 21) = "1e+21"
  /\ Number_toString (2 ^ 70) = "1.1805916207174113e+21".
Proof. repeat split; vm_compute; reflexivity. Qed.

Example too_long_message_1e21 :
  too_long_message (Num (inject_Z (10 ^ 21))) = "Video is 1e+21s. Maximum is 30s."
  /\ too_long_message Infinity = "Video is Infinitys. Maximum is 30s.".
Proof. split; vm_compute; reflexivity. Qed.

(** The three error texts of [analyzeVideo]: the server's detail, the
    fallback for an unparsable error body, the fallback for a missing
    detail. *)
Example analyzeVideo_detail :
  completion (run (Sample.refusing "quota exceeded") 0
                (Api.analyzeVideo Sample.clip "user-1") tt)
  = inl (Error "quota exceeded").
Proof. reflexivity. Qed.

Example analyzeVideo_unparsable_error_body :
  completion
    (run (fun X e n =>
            Sample.local None X e n
              (fun _ _ => inr (ErrorStatus (inl (Error "Unexpected token <")))))
       0 (Api.analyzeVideo Sample.clip "user-1") tt)
  = inl (Error "Analysis failed").
Proof. reflexivity. Qed.

Example analyzeVideo_no_detail :
  completion
    (run (fun X e n =>
            Sample.local None X e n
              (fun _ _ => inr (ErrorStatus (inr (mkErrorBody None)))))
       0 (Api.analyzeVideo Sample.clip "user-1") tt)
  = inl (Error "Video analysis failed").
Proof. reflexivity. Qed.

(** The scenario of the specification: [clip.mp4], 10 MB, 12 s, is
    analysed and the edit step starts from the analysis (BPM 128); the
    generation with BPM 140 yields three variations; picking one merges
    and ends at [done] with the merged URL. *)
Example scenario_upload :
  home (final (Page.dispatch (Sample.online (Some (Num (12 # 1))))
                 (fun c => Page.upload_intent c Sample.clip) Sample.fresh))
  = mkHome edit (Some Sample.clip) "blob:3" (Some Sample.the_analysis)
      "dark cinematic pulse" "vocals" 128 [] None "" "" None "user-1".
Proof. reflexivity. Qed.

Example scenario_generate :
  let r := Page.dispatch (Sample.online None) Page.handleGenerate Sample.editing in
  home (final r)
  = mkHome pick (Some Sample.clip) "blob:clip" (Some Sample.the_analysis)
      "dark cinematic pulse" "vocals" 140 Sample.three None "" "" (Some 2%Z) "user-1"
  /\ map fst (fetches (trace r))
     = ["/api/music/generate-variations"; "/api/credits/balance"].
Proof. split; reflexivity. Qed.

Example scenario_pick :
  let s := final (run (Sample.online None) 0 (togglePlay Sample.picking Sample.v2)
                    Sample.picking) in
  let r := Page.dispatch (Sample.online None) Page.confirm_pick s in
  step (home (final r)) = done
  /\ selectedVariation (home (final r)) = Some Sample.v2
  /\ mergedVideoUrl (home (final r)) = "/exports/out.mp4".
Proof. repeat split; reflexivity. Qed.

(* ================================================================== *)
(** * The step controller: failed and successful calls *)
(* ================================================================== *)

(** C1.  When the generate call of [handleGenerate] fails (the promise of
    [generateVariations] rejects with [e]), the store after the handler is
    the store before it with only two fields of [Home] changed: [error]
    holds the message and [step] is [edit].  In particular the prompt, the
    negative prompt, the BPM, the variation sequence, the analysis, the
    video file and the selection are what they were. *)
Theorem handleGenerate_failure_only_error_and_step :
  forall (w : World) (s : Store) (a : VideoAnalysis) (e : thrown),
    analysis (home s) = Some a ->
    completion
      (run w 0
         (Api.generateVariations (prompt (home s)) (negativePrompt (home s))
            (overall_mood a) (bpm (home s)) (userIdRef (home s)) (style_suggestions a))
         tt) = inl e ->
    let s' := final (Page.dispatch w Page.handleGenerate s) in
    s' = over_home
           (fun h => put_step edit (put_error (message_or e "Generation failed") h)) s
    /\ step (home s') = edit
    /\ error (home s') = message_or e "Generation failed"
    /\ prompt (home s') = prompt (home s)
    /\ negativePrompt (home s') = negativePrompt (home s)
    /\ bpm (home s') = bpm (home s)
    /\ variations (home s') = variations (home s)
    /\ analysis (home s') = analysis (home s)
    /\ videoFile (home s') = videoFile (home s)
    /\ selectedVariation (home s') = selectedVariation (home s).
Proof.
  intros w s a e Ha Hfail s'.
  assert (Hs' : s' = over_home
                       (fun h => put_step edit
                                   (put_error (message_or e "Generation failed") h)) s).
  { subst s'. unfold Page.dispatch, Page.handleGenerate.
    rewrite Ha. cbn. run_down. rewrite Hfail. cbn.
    clear. store_eq s. }
  split; [exact Hs' |].
  rewrite Hs'. clear. destruct s as [h u p]; destruct h; cbn.
  repeat split.
Qed.

Lemma handleGenerate_failure_only_error_and_step_witness :
  let w := Sample.offline None in
  let s := Sample.editing in
  let s' := final (Page.dispatch w Page.handleGenerate s) in
  analysis (home s) = Some Sample.the_analysis
  /\ completion
       (run w 0
          (Api.generateVariations "dark cinematic pulse" "vocals" "tense" 140 "user-1"
             [mkStyleSuggestion "Cinematic" "orchestral"]) tt)
     = inl (Error "Failed to fetch")
  /\ step (home s') = edit
  /\ error (home s') = "Failed to fetch"
  /\ prompt (home s') = "dark cinematic pulse"
  /\ bpm (home s') = 140%Z
  /\ variations (home s') = [].
Proof.
  intros w s s'.
  split; [reflexivity |]. split; [reflexivity |].
  destruct (handleGenerate_failure_only_error_and_step
              w s Sample.the_analysis (Error "Failed to fetch") eq_refl eq_refl)
    as (_ & Hstep & Herr & Hp & _ & Hb & Hv & _).
  repeat split; assumption.
Defined.

(** The request of each client operation. *)
Lemma analyzeVideo_trace (w : World) n file tok :
  trace (run w n (Api.analyzeVideo file tok) tt) =
  [Performed (Fetch VideoAnalyze
                (mkInit "POST" [("x-user-id", tok)]
                   (Some (FormData [("file", EntryFile file)]))))].
Proof.
  unfold Api.analyzeVideo, Api.fetch, perform; cbn.
  destruct (w _ _ n) as [e | [[e' | []] | [e | r]]]; reflexivity.
Qed.

Lemma generateVariations_trace (w : World) n p np m b tok ss :
  trace (run w n (Api.generateVariations p np m b tok ss) tt) =
  [Performed (Fetch MusicGenerateVariations
                (mkInit "POST"
                   [("Content-Type", "application/json"); ("x-user-id", tok)]
                   (Some (JsonText (mkGenerateBody p np m b ss)))))].
Proof.
  unfold Api.generateVariations, Api.fetch, perform; cbn.
  destruct (w _ _ n) as [e | [[e' | []] | [e | r]]]; reflexivity.
Qed.

Lemma mergeVideoAudio_trace (w : World) n file id mix segs :
  trace (run w n (Api.mergeVideoAudio file id mix segs) tt) =
  [Performed (Fetch MusicMerge
                (mkInit "POST" []
                   (Some (FormData
                            [("video", EntryFile file);
                             ("file_id", EntryString id);
                             ("mix_mode", EntryString mix);
                             ("segments_json", EntryJson segs)]))))].
Proof.
  unfold Api.mergeVideoAudio, Api.fetch, perform; cbn.
  destruct (w _ _ n) as [e | [[e' | []] | [e | r]]]; reflexivity.
Qed.

(** How [getCredits] completes, by the answer to its request. *)
Lemma getCredits_completion (w : World) n tok :
  completion (run w n (Api.getCredits tok) tt) =
  match w _ (Fetch CreditsBalance (mkInit "GET" [("x-user-id", tok)] None)) n with
  | inl e => inl e
  | inr (ErrorStatus _) => inr 0%Z
  | inr (OkStatus (inl e)) => inl e
  | inr (OkStatus (inr data)) => inr (Types.credits data)
  end.
Proof.
  unfold Api.getCredits, Api.fetch, perform; cbn.
  destruct (w _ _ n) as [e | [json | [e | r]]]; reflexivity.
Qed.


Lemma getCredits_trace (w : World) n tok :
  trace (run w n (Api.getCredits tok) tt) =
  [Performed (Fetch CreditsBalance (mkInit "GET" [("x-user-id", tok)] None))].
Proof.
  unfold Api.getCredits, Api.fetch, perform; cbn.
  destruct (w _ _ n) as [e | [json | [e | r]]]; reflexivity.
Qed.

(** C2, as the code has it.  When the analyze call of [handleUpload]
    fails, [error] holds the message and [step] is back at [upload]; the
    video file and the preview URL stay as the handler stored them before
    the call (the uploaded file and its object URL); every other field,
    the analysis included, is what it was before the intent. *)
Theorem handleUpload_failure_keeps_upload :
  forall (w : World) (s : Store) (file : File) (e : thrown),
    completion (run w 1 (Api.analyzeVideo file (userIdRef (home s))) tt) = inl e ->
    let s' := final (Page.dispatch w (fun c => Page.handleUpload c file) s) in
    s' = over_home
           (fun h =>
              put_step upload
                (put_error (message_or e "Analysis failed")
                   (put_videoUrl (w _ (CreateObjectURL file) 0%nat)
                      (put_videoFile (Some file) h)))) s
    /\ step (home s') = upload
    /\ error (home s') = message_or e "Analysis failed"
    /\ videoFile (home s') = Some file
    /\ videoUrl (home s') = w _ (CreateObjectURL file) 0%nat
    /\ analysis (home s') = analysis (home s)
    /\ prompt (home s') = prompt (home s)
    /\ negativePrompt (home s') = negativePrompt (home s)
    /\ bpm (home s') = bpm (home s)
    /\ variations (home s') = variations (home s)
    /\ selectedVariation (home s') = selectedVariation (home s)
    /\ mergedVideoUrl (home s') = mergedVideoUrl (home s)
    /\ credits (home s') = credits (home s).
Proof.
  intros w s file e Hfail s'.
  assert (Hs' : s' = over_home
                  (fun h =>
                     put_step upload
                       (put_error (message_or e "Analysis failed")
                          (put_videoUrl (w _ (CreateObjectURL file) 0%nat)
                             (put_videoFile (Some file) h)))) s).
  { subst s'. unfold Page.dispatch, Page.handleUpload. cbn. run_down.
    rewrite Hfail. cbn. clear. store_eq s. }
  split; [exact Hs' |].
  rewrite Hs'. clear. destruct s as [h u p]; destruct h; cbn.
  repeat split.
Qed.

Lemma handleUpload_failure_keeps_upload_witness :
  let w := Sample.refusing "quota exceeded" in
  let s := Sample.editing in
  let s' := final (Page.dispatch w (fun c => Page.handleUpload c Sample.long_clip) s) in
  completion (run w 1 (Api.analyzeVideo Sample.long_clip "user-1") tt)
  = inl (Error "quota exceeded")
  /\ step (home s') = upload
  /\ error (home s') = "quota exceeded"
  /\ videoFile (home s') = Some Sample.long_clip
  /\ videoUrl (home s') = "blob:0"
  /\ analysis (home s') = Some Sample.the_analysis.
Proof.
  intros w s s'.
  split; [reflexivity |].
  destruct (handleUpload_failure_keeps_upload
              w s Sample.long_clip (Error "quota exceeded") eq_refl)
    as (_ & Hstep & Herr & Hf & Hu & Ha & _).
  repeat split; assumption.
Defined.

(** C2 as stated fails: after a failed analyze call the stored video file
    and preview URL are those of the failed upload, not the values from
    before the intent. *)
Lemma handleUpload_failure_state_unchanged_counterexample :
  let w := Sample.offline None in
  let s := Sample.fresh in
  let s' := final (Page.dispatch w (fun c => Page.handleUpload c Sample.clip) s) in
  completion (run w 1 (Api.analyzeVideo Sample.clip (userIdRef (home s))) tt)
  = inl (Error "Failed to fetch")
  /\ step (home s') = upload
  /\ error (home s') = "Failed to fetch"
  /\ videoFile (home s) = None
  /\ videoFile (home s') = Some Sample.clip
  /\ videoFile (home s') <> videoFile (home s)
  /\ videoUrl (home s) = ""
  /\ videoUrl (home s') = "blob:0"
  /\ videoUrl (home s') <> videoUrl (home s).
Proof.
  cbv zeta. repeat split; try reflexivity; vm_compute; discriminate.
Qed.

(* ================================================================== *)
(** * The credits endpoints *)
(* ================================================================== *)




(** Whatever the endpoint answers otherwise is passed on: a rejection of
    [fetch] or of [res.json()] is rethrown unchanged. *)
Lemma getCredits_rethrows (w : World) n tok e :
  w _ (Fetch CreditsBalance (mkInit "GET" [("x-user-id", tok)] None)) n = inl e
  \/ w _ (Fetch CreditsBalance (mkInit "GET" [("x-user-id", tok)] None)) n
     = inr (OkStatus (inl e)) ->
  completion (run w n (Api.getCredits tok) tt) = inl e.
Proof.
  intros [H | H]; rewrite getCredits_completion, H; reflexivity.
Qed.

(* ================================================================== *)
(** * Generation, and the credits refresh after it *)
(* ================================================================== *)

(** When the generate call resolves and the refresh does not throw, the
    variations and the balance are stored and the step is [pick]. *)
Lemma handleGenerate_success (w : World) (s : Store) (a : VideoAnalysis)
    (result : VariationsResult) (balance : Z) :
  analysis (home s) = Some a ->
  completion
    (run w 0
       (Api.generateVariations (prompt (home s)) (negativePrompt (home s))
          (overall_mood a) (bpm (home s)) (userIdRef (home s)) (style_suggestions a))
       tt) = inr result ->
  completion (run w 1 (Api.getCredits (userIdRef (home s))) tt) = inr balance ->
  let r := Page.dispatch w Page.handleGenerate s in
  completion r = inr tt
  /\ final r = over_home
                 (fun h =>
                    put_step pick
                      (put_credits (Some balance)
                         (put_variations (Types.variations result)
                            (put_error "" h)))) s.
Proof.
  intros Ha Hgen Hcred r. subst r.
  unfold Page.dispatch, Page.handleGenerate, Page.refreshCredits.
  rewrite Ha. cbn. run_down.
  rewrite Hgen. cbn. rewrite generateVariations_trace. cbn.
  run_down. rewrite Hcred. cbn.
  split; [reflexivity |]. clear. store_eq s.
Qed.

(** When the generate call resolves and the refresh throws, the thrown
    value lands in the handler's [catch]: the variations stay stored, the
    message is recorded and the step is [edit]. *)
Lemma handleGenerate_refresh_throws (w : World) (s : Store) (a : VideoAnalysis)
    (result : VariationsResult) (e : thrown) :
  analysis (home s) = Some a ->
  completion
    (run w 0
       (Api.generateVariations (prompt (home s)) (negativePrompt (home s))
          (overall_mood a) (bpm (home s)) (userIdRef (home s)) (style_suggestions a))
       tt) = inr result ->
  completion (run w 1 (Api.getCredits (userIdRef (home s))) tt) = inl e ->
  final (Page.dispatch w Page.handleGenerate s)
  = over_home
      (fun h =>
         put_step edit
           (put_error (message_or e "Generation failed")
              (put_variations (Types.variations result) h))) s.
Proof.
  intros Ha Hgen Hcred.
  unfold Page.dispatch, Page.handleGenerate, Page.refreshCredits.
  rewrite Ha. cbn. run_down.
  rewrite Hgen. cbn. rewrite generateVariations_trace. cbn.
  run_down. rewrite Hcred. cbn.
  clear. store_eq s.
Qed.

(** C4, as the code has it.  When the generate call resolves and the
    credits refresh fails with a non-2xx response, nothing is surfaced:
    the handler completes, [error] is empty, the variation sequence is
    stored, the balance reads zero and the step is [pick]. *)
Theorem handleGenerate_refresh_error_status_reaches_pick :
  forall (w : World) (s : Store) (a : VideoAnalysis) (result : VariationsResult)
         (json : thrown + ErrorBody),
    analysis (home s) = Some a ->
    completion
      (run w 0
         (Api.generateVariations (prompt (home s)) (negativePrompt (home s))
            (overall_mood a) (bpm (home s)) (userIdRef (home s)) (style_suggestions a))
         tt) = inr result ->
    w _ (Fetch CreditsBalance (mkInit "GET" [("x-user-id", userIdRef (home s))] None)) 1%nat
    = inr (ErrorStatus json) ->
    let r := Page.dispatch w Page.handleGenerate s in
    completion r = inr tt
    /\ step (home (final r)) = pick
    /\ variations (home (final r)) = Types.variations result
    /\ error (home (final r)) = ""
    /\ credits (home (final r)) = Some 0%Z.
Proof.
  intros w s a result json Ha Hgen Hans r.
  assert (Hcred : completion (run w 1 (Api.getCredits (userIdRef (home s))) tt) = inr 0%Z).
  { rewrite getCredits_completion, Hans. reflexivity. }
  destruct (handleGenerate_success w s a result 0%Z Ha Hgen Hcred) as [Hc Hf].
  subst r. split; [exact Hc |]. rewrite Hf.
  clear. destruct s as [h u p]; destruct h; cbn. repeat split.
Qed.

Lemma handleGenerate_refresh_error_status_reaches_pick_witness :
  let w := Sample.credits_world (inr (ErrorStatus (inl (Error "Unexpected end of input")))) in
  let s := Sample.editing in
  let r := Page.dispatch w Page.handleGenerate s in
  analysis (home s) = Some Sample.the_analysis
  /\ completion
       (run w 0
          (Api.generateVariations "dark cinematic pulse" "vocals" "tense" 140 "user-1"
             [mkStyleSuggestion "Cinematic" "orchestral"]) tt)
     = inr (mkVariationsResult Sample.three)
  /\ completion r = inr tt
  /\ step (home (final r)) = pick
  /\ variations (home (final r)) = Sample.three
  /\ error (home (final r)) = ""
  /\ credits (home (final r)) = Some 0%Z.
Proof.
  intros w s r.
  split; [reflexivity |]. split; [reflexivity |].
  exact (handleGenerate_refresh_error_status_reaches_pick
           w s Sample.the_analysis (mkVariationsResult Sample.three) _
           eq_refl eq_refl eq_refl).
Defined.

(** C4 as stated fails: when the refresh fails with a network exception
    after a successful generate call, the failure is recorded as the flow
    error and the step goes back to [edit] instead of [pick]. *)
Lemma handleGenerate_refresh_best_effort_counterexample :
  let w := Sample.credits_world (inl (Error "Failed to fetch")) in
  let s := Sample.editing in
  let r := Page.dispatch w Page.handleGenerate s in
  completion
    (run w 0
       (Api.generateVariations (prompt (home s)) (negativePrompt (home s))
          (overall_mood Sample.the_analysis) (bpm (home s)) (userIdRef (home s))
          (style_suggestions Sample.the_analysis)) tt)
  = inr (mkVariationsResult Sample.three)
  /\ completion (run w 1 (Api.getCredits (userIdRef (home s))) tt)
     = inl (Error "Failed to fetch")
  /\ error (home (final r)) = "Failed to fetch"
  /\ step (home (final r)) = edit
  /\ step (home (final r)) <> pick
  /\ variations (home (final r)) = Sample.three.
Proof.
  cbv zeta. repeat split; try reflexivity; vm_compute; discriminate.
Qed.

(* ================================================================== *)
(** * Reset *)
(* ================================================================== *)

(** C5.  From every store, at any step, [handleReset] performs no request
    and leaves [Home] with no video file, an empty preview URL, no
    analysis, an empty prompt and negative prompt, BPM 120, no variations,
    no selection, an empty merged-video URL, an empty error, and step
    [upload]; only the credits balance and the identity token are kept. *)
Theorem handleReset_clears_everything :
  forall (w : World) (s : Store),
    let r := Page.dispatch w (fun _ => Page.handleReset) s in
    completion r = inr tt
    /\ trace r = []
    /\ final r = over_home
                   (fun h =>
                      mkHome upload None "" None "" "" 120 [] None "" ""
                        (credits h) (userIdRef h)) s
    /\ step (home (final r)) = upload
    /\ videoFile (home (final r)) = None
    /\ videoUrl (home (final r)) = ""
    /\ analysis (home (final r)) = None
    /\ prompt (home (final r)) = ""
    /\ negativePrompt (home (final r)) = ""
    /\ bpm (home (final r)) = 120%Z
    /\ variations (home (final r)) = []
    /\ selectedVariation (home (final r)) = None
    /\ mergedVideoUrl (home (final r)) = ""
    /\ error (home (final r)) = "".
Proof.
  intros w s r.
  assert (Hf : final r = over_home
                           (fun h =>
                              mkHome upload None "" None "" "" 120 [] None "" ""
                                (credits h) (userIdRef h)) s).
  { subst r. clear. store_eq s. }
  split; [reflexivity |]. split; [reflexivity |].
  split; [exact Hf |].
  rewrite Hf. cbn. repeat split.
Qed.

(* ================================================================== *)
(** * The upload validator *)
(* ================================================================== *)

Lemma includes_In (xs : list string) (x : string) :
  includes xs x = true <-> In x xs.
Proof.
  unfold includes. rewrite existsb_exists. split.
  - intros (y & Hy & Heq). apply String.eqb_eq in Heq. now subst.
  - intros H. exists x. split; [exact H | apply String.eqb_refl].
Qed.

Lemma includes_not_In (xs : list string) (x : string) :
  ~ In x xs -> includes xs x = false.
Proof.
  intros H. destruct (includes xs x) eqn:E; [| reflexivity].
  apply includes_In in E. contradiction.
Qed.

(** The size test of [validate], on bytes: the quotient exceeds 50 exactly
    when the size exceeds 50 * 1024 * 1024. *)
Lemma size_in_MB_le (file : File) :
  Qle_bool (size_in_MB file) (inject_Z MAX_SIZE_MB) = true
  <-> (size file <= 50 * 1024 * 1024)%N.
Proof.
  rewrite Qle_bool_iff. unfold size_in_MB, MAX_SIZE_MB, Qle, Qdiv, Qmult, Qinv, inject_Z.
  cbn. lia.
Qed.

Lemma gt_exceeds (d : number) (m : Q) : gt d m = true <-> exceeds d m.
Proof.
  destruct d as [q | |]; cbn.
  - rewrite negb_true_iff, <- not_true_iff_false, Qle_bool_iff.
    split; [apply Qnot_le_lt | apply Qlt_not_le].
  - tauto.
  - split; [discriminate | contradiction].
Qed.

Lemma validate_passes (file : File) :
  In (type file) ALLOWED_TYPES ->
  (size file <= 50 * 1024 * 1024)%N ->
  validate file = None.
Proof.
  intros Ht Hs. unfold validate.
  apply includes_In in Ht. rewrite Ht. cbn [negb].
  apply size_in_MB_le in Hs. rewrite Hs. reflexivity.
Qed.

(** C7.  A file whose MIME type is not one of the four allowed types is
    rejected by [validate] with the reason naming the allowed formats,
    whatever its size (the size test is not reached).  [handleFile] then
    only sets that reason as the validation error: it performs no request
    at all (no object URL, no metadata probe, no network call) and does
    not call [onUpload], whatever [onUpload] is; through the page's wiring
    the state of [Home] is untouched. *)
Theorem handleFile_rejects_unsupported_type :
  forall (w : World) (n : nat) (s : Store)
         (onUpload : File -> prog Store unit) (file : File),
    ~ In (type file) ["video/mp4"; "video/quicktime"; "video/webm"; "video/x-msvideo"] ->
    validate file = Some "Unsupported format. Use MP4, MOV, WebM, or AVI."
    /\ run w n (handleFile onUpload file) s
       = mkOutcome
           (over_videoUpload
              (fun u => mkVideoUpload (dragging u)
                          "Unsupported format. Use MP4, MOV, WebM, or AVI.") s)
           [] (inr tt)
    /\ (let r := Page.dispatch w (fun c => Page.upload_intent c file) s in
        trace r = [] /\ fetches (trace r) = [] /\ home (final r) = home s).
Proof.
  intros w n s onUpload file Hty.
  assert (Hv : validate file = Some unsupported_format).
  { unfold validate. fold ALLOWED_TYPES in Hty.
    now rewrite (includes_not_In _ _ Hty). }
  assert (Hrun : forall k m,
             run w m (handleFile k file) s
             = mkOutcome
                 (over_videoUpload
                    (fun u => mkVideoUpload (dragging u) unsupported_format) s)
                 [] (inr tt)).
  { intros k m. unfold handleFile. rewrite Hv. cbn. now destruct s. }
  split; [exact Hv |]. split; [apply Hrun |].
  unfold Page.dispatch, Page.upload_intent. rewrite Hrun. cbn.
  now destruct s.
Qed.

Lemma handleFile_rejects_unsupported_type_witness :
  let r := Page.dispatch (Sample.online (Some (Num (12 # 1))))
             (fun c => Page.upload_intent c Sample.notes) Sample.fresh in
  ~ In (type Sample.notes) ["video/mp4"; "video/quicktime"; "video/webm"; "video/x-msvideo"]
  /\ validationError (videoUpload (final r))
     = "Unsupported format. Use MP4, MOV, WebM, or AVI."
  /\ trace r = []
  /\ home (final r) = home Sample.fresh.
Proof.
  intro r.
  assert (Hty : ~ In (type Sample.notes)
                    ["video/mp4"; "video/quicktime"; "video/webm"; "video/x-msvideo"]).
  { cbn. intros [H | [H | [H | [H | []]]]]; discriminate H. }
  split; [exact Hty |].
  destruct (handleFile_rejects_unsupported_type
              (Sample.online (Some (Num (12 # 1)))) 0 Sample.fresh
              (Page.onUpload Sample.fresh) Sample.notes Hty)
    as (_ & Hrun & Htr & _ & Hhome).
  split; [| split; [exact Htr | exact Hhome]].
  subst r. unfold Page.dispatch, Page.upload_intent. rewrite Hrun. reflexivity.
Defined.

(** What [handleFile] does with an overlong video, in the terms of the
    embedding. *)
Lemma handleFile_overlong_run (w : World) (n : nat) (s : Store)
    (onUpload : File -> prog Store unit) (file : File) (duration : number) :
  validate file = None ->
  w _ (LoadedMetadata (w _ (CreateObjectURL file) n)) (S n) = Some duration ->
  exceeds duration 30 ->
  run w n (handleFile onUpload file) s
  = mkOutcome
      (over_videoUpload
         (fun u => mkVideoUpload (dragging u)
                     ("Video is " ++ string_of_rounded (Math_round duration)
                        ++ "s. Maximum is 30s.")) s)
      (probe_trace w n file) (inr tt).
Proof.
  intros Hv Hprobe Hlong.
  unfold handleFile, checkDuration. rewrite Hv. cbn.
  rewrite Hprobe. cbn.
  change (inject_Z MAX_DURATION_S) with 30%Q.
  apply gt_exceeds in Hlong. rewrite Hlong. cbn.
  now destruct s.
Qed.

(** [Math.round] yields the nearest integer, the upper one of two. *)
Lemma Math_round_nearest (q : Q) : nearest_integer q (Qfloor (q + (1 # 2))).
Proof.
  pose proof (Qfloor_le (q + (1 # 2))) as Hle.
  pose proof (Qlt_floor (q + (1 # 2))) as Hlt.
  rewrite inject_Z_plus in Hlt.
  change (inject_Z 1) with 1%Q in Hlt.
  split; lra.
Qed.

(** Up to 2^53 an integer is printed as its decimal numeral. *)
Lemma Number_toString_safe (z : Z) :
  (Z.abs z <= 2 ^ 53)%Z -> Number_toString z = NilZero.string_of_int (Z.to_int z).
Proof.
  intros H. unfold Number_toString.
  apply Z.leb_le in H. now rewrite H.
Qed.

(** C8.  For a file that passes [validate] (type and size) and whose
    probed duration exceeds 30 s, [handleFile] ends with the validation
    error "Video is <shown>s. Maximum is 30s." and, apart from probing the
    metadata, does nothing else: [onUpload] is not called, whatever it is.
    For a finite duration [shown] is the text of the integer nearest to
    the duration (the upper one of two), which up to 2^53 is its decimal
    numeral; for an unbounded duration it is "Infinity". *)
Theorem handleFile_rejects_overlong_video :
  forall (w : World) (n : nat) (s : Store)
         (onUpload : File -> prog Store unit) (file : File) (duration : number),
    validate file = None ->
    w _ (LoadedMetadata (w _ (CreateObjectURL file) n)) (S n) = Some duration ->
    exceeds duration 30 ->
    exists shown : string,
      run w n (handleFile onUpload file) s
      = mkOutcome
          (over_videoUpload
             (fun u => mkVideoUpload (dragging u)
                         ("Video is " ++ shown ++ "s. Maximum is 30s.")) s)
          (probe_trace w n file) (inr tt)
      /\ match duration with
         | Num q =>
             exists z : Z,
               nearest_integer q z
               /\ shown = Number_toString z
               /\ ((z <= 2 ^ 53)%Z -> shown = NilZero.string_of_int (Z.to_int z))
         | Infinity => shown = "Infinity"
         | NaN => False
         end.
Proof.
  intros w n s onUpload file duration Hv Hprobe Hlong.
  exists (string_of_rounded (Math_round duration)).
  split; [now apply handleFile_overlong_run |].
  destruct duration as [q | |]; cbn [Math_round string_of_rounded].
  - exists (Qfloor (q + (1 # 2))).
    pose proof (Math_round_nearest q) as Hnear.
    split; [exact Hnear |]. split; [reflexivity |].
    intros Hsafe. apply Number_toString_safe.
    assert (Hpos : (30 <= Qfloor (q + (1 # 2)))%Z).
    { cbn in Hlong.
      assert (Hle : (inject_Z 30 <= q + (1 # 2))%Q)
        by (change (inject_Z 30) with 30%Q; lra).
      apply Qfloor_resp_le in Hle. now rewrite Qfloor_Z in Hle. }
    lia.
  - reflexivity.
  - exact Hlong.
Qed.

Lemma handleFile_rejects_overlong_video_witness :
  let w := Sample.online (Some (Num (61 # 2))) in
  validate Sample.long_clip = None
  /\ exceeds (Num (61 # 2)) 30
  /\ run w 0 (handleFile (Page.onUpload Sample.fresh) Sample.long_clip) Sample.fresh
     = mkOutcome
         (over_videoUpload
            (fun u => mkVideoUpload (dragging u) "Video is 31s. Maximum is 30s.")
            Sample.fresh)
         (probe_trace w 0 Sample.long_clip) (inr tt).
Proof.
  intro w.
  assert (Hv : validate Sample.long_clip = None) by reflexivity.
  assert (Hlong : exceeds (Num (61 # 2)) 30) by reflexivity.
  split; [exact Hv |]. split; [exact Hlong |].
  destruct (handleFile_rejects_overlong_video w 0 Sample.fresh
              (Page.onUpload Sample.fresh) Sample.long_clip (Num (61 # 2))
              Hv eq_refl Hlong)
    as (shown & Hrun & z & [Hlo Hhi] & _ & Hsafe).
  assert (Hz : z = 31%Z).
  { unfold Qle, Qlt in Hlo, Hhi. cbn in Hlo, Hhi. lia. }
  subst z. rewrite (Hsafe ltac:(lia)) in Hrun. exact Hrun.
Defined.

(** C6.  For a file of an allowed type, of at most 50 * 1024 * 1024 bytes,
    whose metadata loads with a duration of at most 30 s (both bounds
    included), [validate] passes, no validation error is shown, and the
    upload intent issues exactly one network request: the analyze call,
    carrying that file. *)
Theorem valid_file_is_analyzed_once :
  forall (w : World) (s : Store) (file : File) (q : Q),
    In (type file) ["video/mp4"; "video/quicktime"; "video/webm"; "video/x-msvideo"] ->
    (size file <= 50 * 1024 * 1024)%N ->
    w _ (LoadedMetadata (w _ (CreateObjectURL file) 0%nat)) 1%nat = Some (Num q) ->
    (q <= 30)%Q ->
    let r := Page.dispatch w (fun c => Page.upload_intent c file) s in
    validate file = None
    /\ validationError (videoUpload (final r)) = ""
    /\ fetches (trace r)
       = [("/api/video/analyze",
           mkInit "POST" [("x-user-id", userIdRef (home s))]
             (Some (FormData [("file", EntryFile file)])))].
Proof.
  intros w s file q Hty Hsz Hprobe Hq r.
  assert (Hv : validate file = None) by (apply validate_passes; assumption).
  split; [exact Hv |].
  assert (Hle : Qle_bool q (inject_Z MAX_DURATION_S) = true).
  { apply Qle_bool_iff. exact Hq. }
  subst r.
  unfold Page.dispatch, Page.upload_intent, handleFile, checkDuration.
  rewrite Hv. cbn. rewrite Hprobe. cbn. rewrite Hle. cbn.
  run_down. rewrite analyzeVideo_trace.
  destruct (completion (run w 4 (Api.analyzeVideo file (userIdRef (home s))) tt))
    as [e | result]; cbn; destruct s; split; reflexivity.
Qed.

Lemma valid_file_is_analyzed_once_witness :
  let w := Sample.online (Some (Num 30)) in
  let file := mkFile "edge.mov" "video/quicktime" (50 * 1024 * 1024) in
  let r := Page.dispatch w (fun c => Page.upload_intent c file) Sample.fresh in
  In (type file) ["video/mp4"; "video/quicktime"; "video/webm"; "video/x-msvideo"]
  /\ (size file <= 50 * 1024 * 1024)%N
  /\ (30 <= 30)%Q
  /\ validate file = None
  /\ validationError (videoUpload (final r)) = ""
  /\ fetches (trace r)
     = [("/api/video/analyze",
         mkInit "POST" [("x-user-id", "user-1")]
           (Some (FormData [("file", EntryFile file)])))].
Proof.
  intros w file r.
  assert (Hty : In (type file)
                  ["video/mp4"; "video/quicktime"; "video/webm"; "video/x-msvideo"]).
  { cbn. right; left; reflexivity. }
  assert (Hsz : (size file <= 50 * 1024 * 1024)%N) by (cbn; lia).
  assert (Hq : (30 <= 30)%Q) by apply Qle_refl.
  split; [exact Hty |]. split; [exact Hsz |]. split; [exact Hq |].
  exact (valid_file_is_analyzed_once w Sample.fresh file 30 Hty Hsz eq_refl Hq).
Defined.

(* ================================================================== *)
(** * Picking a variation and merging *)
(* ================================================================== *)

(** C9.  With a video file and an analysis in the store,
    [handlePickVariation variation] issues exactly one network request:
    the merge call, whose form carries the video file, the file identifier
    of [variation], the mix mode "social" and the segments of the
    analysis, and which has no headers at all, so no [x-user-id].  When
    the merge call resolves, the recorded [selectedVariation] is
    [variation], the merged URL is stored and the step is [done]. *)
Theorem handlePickVariation_merges_chosen_variation :
  forall (w : World) (s : Store) (file : File) (a : VideoAnalysis)
         (variation : MusicVariation),
    videoFile (home s) = Some file ->
    analysis (home s) = Some a ->
    let r := Page.dispatch w (fun c => Page.handlePickVariation c variation) s in
    fetches (trace r)
    = [("/api/music/merge",
        mkInit "POST" []
          (Some (FormData
                   [("video", EntryFile file);
                    ("file_id", EntryString (file_id variation));
                    ("mix_mode", EntryString "social");
                    ("segments_json", EntryJson (segments a))])))]
    /\ (forall p init,
          In (p, init) (fetches (trace r)) ->
          ~ In "x-user-id" (map fst (headers init)))
    /\ (forall result,
          completion
            (run w 0 (Api.mergeVideoAudio file (file_id variation) "social" (segments a)) tt)
          = inr result ->
          selectedVariation (home (final r)) = Some variation
          /\ mergedVideoUrl (home (final r)) = video_url result
          /\ step (home (final r)) = done).
Proof.
  intros w s file a variation Hfile Ha r.
  assert (Htrace : trace r
                   = trace (run w 0
                              (Api.mergeVideoAudio file (file_id variation) "social"
                                 (segments a)) tt)).
  { subst r. unfold Page.dispatch, Page.handlePickVariation.
    rewrite Hfile, Ha. cbn. run_down.
    destruct (completion (run w 0 (Api.mergeVideoAudio _ _ _ _) tt)); cbn.
    - apply app_nil_r.
    - apply app_nil_r. }
  assert (Hfetches : fetches (trace r)
                     = [("/api/music/merge",
                         mkInit "POST" []
                           (Some (FormData
                                    [("video", EntryFile file);
                                     ("file_id", EntryString (file_id variation));
                                     ("mix_mode", EntryString "social");
                                     ("segments_json", EntryJson (segments a))])))]).
  { rewrite Htrace, mergeVideoAudio_trace. reflexivity. }
  split; [exact Hfetches |]. split.
  - intros p init Hin. rewrite Hfetches in Hin.
    destruct Hin as [Heq | []]. inversion Heq; subst. cbn. tauto.
  - intros result Hres. subst r.
    unfold Page.dispatch, Page.handlePickVariation.
    rewrite Hfile, Ha. cbn. run_down. rewrite Hres. cbn.
    repeat split.
Qed.

Lemma handlePickVariation_merges_chosen_variation_witness :
  let w := Sample.online None in
  let s := Sample.picking in
  let r := Page.dispatch w (fun c => Page.handlePickVariation c Sample.v2) s in
  videoFile (home s) = Some Sample.clip
  /\ analysis (home s) = Some Sample.the_analysis
  /\ fetches (trace r)
     = [("/api/music/merge",
         mkInit "POST" []
           (Some (FormData
                    [("video", EntryFile Sample.clip);
                     ("file_id", EntryString "f-2");
                     ("mix_mode", EntryString "social");
                     ("segments_json", EntryJson (segments Sample.the_analysis))])))]
  /\ selectedVariation (home (final r)) = Some Sample.v2
  /\ step (home (final r)) = done.
Proof.
  intros w s r.
  split; [reflexivity |]. split; [reflexivity |].
  destruct (handlePickVariation_merges_chosen_variation
              w s Sample.clip Sample.the_analysis Sample.v2 eq_refl eq_refl)
    as (Hfetch & _ & Hdone).
  split; [exact Hfetch |].
  destruct (Hdone (mkMergeResult "/exports/out.mp4" (12 # 1)) eq_refl)
    as (Hsel & _ & Hstep).
  split; assumption.
Defined.

(* ================================================================== *)
(** * The variation picker *)
(* ================================================================== *)

Lemma initial_selected (vs : list MusicVariation) :
  selected (initial vs) = match vs with [] => "" | v :: _ => file_id v end.
Proof.
  destruct vs as [| v vs]; cbn; [reflexivity |].
  destruct (String.eqb (file_id v) "") eqn:E; [| reflexivity].
  apply String.eqb_eq in E. now rewrite E.
Qed.

Lemma picker_inv_initial (vs : list MusicVariation) : picker_inv vs (initial vs).
Proof.
  split; [discriminate |]. split.
  - rewrite initial_selected. destruct vs as [| v vs].
    + now left.
    + right. exists v. split; [now left | reflexivity].
  - cbn. discriminate.
Qed.

Lemma playing_is_true (p : option string) (id : string) :
  playing_is p id = true <-> p = Some id.
Proof.
  destruct p as [x |]; cbn.
  - rewrite String.eqb_eq. split; [now intros -> | now intros [= ->]].
  - split; discriminate.
Qed.

(** The picker after [togglePlay], when the audio element is there. *)
Lemma togglePlay_final (w : World) n (s : Store) (v : MusicVariation) (a : Audio) :
  audioRef (variationPicker s) = Some a ->
  variationPicker (final (run w n (togglePlay s v) s))
  = if playing_is (playing (variationPicker s)) (file_id v)
    then mkVariationPicker None (selected (variationPicker s))
           (Some (mkAudio (src a) true))
    else mkVariationPicker (Some (file_id v)) (file_id v)
           (Some (mkAudio (audio_url v) false)).
Proof.
  intros Ha. unfold togglePlay. rewrite Ha.
  destruct (playing_is _ _); cbn; rewrite Ha; reflexivity.
Qed.

Lemma picker_reachable_inv (vs : list MusicVariation) (s : Store) :
  picker_reachable vs s -> picker_inv vs (variationPicker s).
Proof.
  induction 1 as [s | w n s v Hreach IH Hin | w n s Hreach IH].
  - cbn. apply picker_inv_initial.
  - destruct IH as (Haudio & Hsel & Hplay).
    destruct (audioRef (variationPicker s)) as [a |] eqn:Ha; [| contradiction].
    rewrite (togglePlay_final w n s v a Ha).
    destruct (playing_is _ _); cbn.
    + split; [discriminate |]. split; [exact Hsel | discriminate].
    + split; [discriminate |]. split.
      * right. exists v. now split.
      * now intros id [= ->].
  - destruct IH as (Haudio & Hsel & Hplay). cbn.
    split; [exact Haudio |]. split; [exact Hsel | discriminate].
Qed.

(** C10.  In every store a mounted picker goes through, the selected
    identifier is the empty string or the file identifier of a member of
    the variation list.  It starts as the file identifier of the first
    variation (the empty string for an empty list); after [togglePlay] on
    a variation it is that variation's file identifier; [handleSelect]
    either does nothing or calls [onPick] on a member of the list whose
    file identifier is the selected one; with an empty list it does
    nothing. *)
Theorem picker_selection_is_member :
  forall (vs : list MusicVariation) (s : Store),
    picker_reachable vs s ->
    let sel := selected (variationPicker s) in
    (sel = "" \/ exists v, In v vs /\ file_id v = sel)
    /\ selected (initial vs) = match vs with [] => "" | v :: _ => file_id v end
    /\ (forall (w : World) (n : nat) (v : MusicVariation),
          selected (variationPicker (final (run w n (togglePlay s v) s))) = file_id v)
    /\ (forall onPick : MusicVariation -> prog Store unit,
          handleSelect vs onPick s = Ret tt
          \/ exists v, In v vs /\ file_id v = sel /\ handleSelect vs onPick s = onPick v)
    /\ (forall (onPick : MusicVariation -> prog Store unit) (c : Store),
          handleSelect [] onPick c = Ret tt).
Proof.
  intros vs s Hreach sel.
  destruct (picker_reachable_inv vs s Hreach) as (Haudio & Hsel & Hplay).
  split; [exact Hsel |]. split; [apply initial_selected |]. split; [| split].
  - intros w n v.
    destruct (audioRef (variationPicker s)) as [a |] eqn:Ha; [| contradiction].
    rewrite (togglePlay_final w n s v a Ha).
    destruct (playing_is _ _) eqn:E; cbn; [| reflexivity].
    apply playing_is_true in E. now apply Hplay.
  - intros onPick. unfold handleSelect.
    destruct (find _ vs) as [v |] eqn:E; [right | now left].
    apply find_some in E. destruct E as [Hin Heq].
    apply String.eqb_eq in Heq.
    exists v. now repeat split.
  - reflexivity.
Qed.

Lemma picker_selection_is_member_witness :
  let w := Sample.online None in
  let s := final (run w 0 (togglePlay Sample.picking Sample.v2) Sample.picking) in
  picker_reachable Sample.three s
  /\ selected (variationPicker s) = "f-2"
  /\ (exists v, In v Sample.three /\ file_id v = "f-2")
  /\ handleSelect Sample.three (Page.onPick s) s = Page.onPick s Sample.v2.
Proof.
  intros w s.
  assert (Hreach : picker_reachable Sample.three s).
  { apply reach_togglePlay.
    - exact (reach_mount Sample.three Sample.picking).
    - cbn. right; left; reflexivity. }
  split; [exact Hreach |]. split; [reflexivity |].
  destruct (picker_selection_is_member Sample.three s Hreach)
    as ([Hempty | Hmember] & _).
  - discriminate Hempty.
  - split; [exact Hmember | reflexivity].
Defined.

(* ================================================================== *)
(** * The step controller, case by case *)
(* ================================================================== *)

(** The store [handleUpload] ends in, by how the analyze call completes. *)
Lemma handleUpload_final (w : World) (n : nat) (c s : Store) (file : File) :
  final (run w n (Page.handleUpload c file) s) =
  let url := w _ (CreateObjectURL file) n in
  match completion (run w (S n) (Api.analyzeVideo file (userIdRef (home c))) tt) with
  | inl e =>
      over_home
        (fun h =>
           put_step upload
             (put_error (message_or e "Analysis failed")
                (put_videoUrl url (put_videoFile (Some file) h)))) s
  | inr result =>
      over_home
        (fun h =>
           put_step edit
             (put_bpm (Types.bpm result)
                (put_negativePrompt (negative_prompt result)
                   (put_prompt (primary_prompt result)
                      (put_analysis (Some result)
                         (put_error ""
                            (put_videoUrl url (put_videoFile (Some file) h)))))))) s
  end.
Proof.
  unfold Page.handleUpload. cbn. run_down.
  destruct (completion (run w (S n) (Api.analyzeVideo file (userIdRef (home c))) tt))
    as [e | result]; cbn; store_eq s.
Qed.

(** The store [handleGenerate] ends in, by how the generate call and the
    refresh complete. *)
Lemma handleGenerate_final (w : World) (n : nat) (c s : Store) (a : VideoAnalysis) :
  analysis (home c) = Some a ->
  final (run w n (Page.handleGenerate c) s) =
  match completion
          (run w n
             (Api.generateVariations (prompt (home c)) (negativePrompt (home c))
                (overall_mood a) (bpm (home c)) (userIdRef (home c))
                (style_suggestions a)) tt) with
  | inl e =>
      over_home (fun h => put_step edit (put_error (message_or e "Generation failed") h)) s
  | inr result =>
      match completion (run w (S n) (Api.getCredits (userIdRef (home c))) tt) with
      | inl e =>
          over_home
            (fun h =>
               put_step edit
                 (put_error (message_or e "Generation failed")
                    (put_variations (Types.variations result) h))) s
      | inr balance =>
          over_home
            (fun h =>
               put_step pick
                 (put_credits (Some balance)
                    (put_variations (Types.variations result) (put_error "" h)))) s
      end
  end.
Proof.
  intros Ha. unfold Page.handleGenerate, Page.refreshCredits. rewrite Ha. cbn. run_down.
  destruct (completion (run w n (Api.generateVariations _ _ _ _ _ _) tt))
    as [e | result]; cbn.
  - store_eq s.
  - rewrite generateVariations_trace. cbn. run_down.
    replace (n + 1)%nat with (S n) by lia.
    destruct (completion (run w (S n) (Api.getCredits _) tt)) as [e | balance]; cbn;
      store_eq s.
Qed.

(** The store [handlePickVariation] ends in, by how the merge call
    completes. *)
Lemma handlePickVariation_final (w : World) (n : nat) (c s : Store)
    (file : File) (a : VideoAnalysis) (variation : MusicVariation) :
  videoFile (home c) = Some file ->
  analysis (home c) = Some a ->
  final (run w n (Page.handlePickVariation c variation) s) =
  match completion
          (run w n (Api.mergeVideoAudio file (file_id variation) "social" (segments a)) tt)
  with
  | inl e =>
      over_home
        (fun h =>
           put_step pick
             (put_error (message_or e "Merge failed")
                (put_selectedVariation (Some variation) h))) s
  | inr result =>
      over_home
        (fun h =>
           put_step done
             (put_mergedVideoUrl (video_url result)
                (put_selectedVariation (Some variation) (put_error "" h)))) s
  end.
Proof.
  intros Hf Ha. unfold Page.handlePickVariation. rewrite Hf, Ha. cbn. run_down.
  destruct (completion (run w n (Api.mergeVideoAudio _ _ _ _) tt)) as [e | result];
    cbn; store_eq s.
Qed.

(** X1.  Seeding.  When the analyze call resolves, the editor starts from the
    response: the analysis is stored, the prompt, the negative prompt and
    the BPM are its [primary_prompt], [negative_prompt] and [bpm], the
    error is empty and the step is [edit].  What an earlier run left
    downstream (variations, selection, merged URL) is not cleared. *)
Theorem handleUpload_success_seeds_editor :
  forall (w : World) (s : Store) (file : File) (result : VideoAnalysis),
    completion (run w 1 (Api.analyzeVideo file (userIdRef (home s))) tt) = inr result ->
    let h' := home (final (Page.dispatch w (fun c => Page.handleUpload c file) s)) in
    step h' = edit
    /\ analysis h' = Some result
    /\ prompt h' = primary_prompt result
    /\ negativePrompt h' = negative_prompt result
    /\ bpm h' = Types.bpm result
    /\ error h' = ""
    /\ videoFile h' = Some file
    /\ videoUrl h' = w _ (CreateObjectURL file) 0%nat
    /\ variations h' = variations (home s)
    /\ selectedVariation h' = selectedVariation (home s)
    /\ mergedVideoUrl h' = mergedVideoUrl (home s).
Proof.
  intros w s file result Hres h'. subst h'.
  unfold Page.dispatch. rewrite handleUpload_final. cbv zeta. rewrite Hres.
  clear. destruct s as [h u p]; destruct h; cbn. repeat split.
Qed.

Lemma handleUpload_success_seeds_editor_witness :
  let w := Sample.online None in
  let h' := home (final (Page.dispatch w (fun c => Page.handleUpload c Sample.long_clip)
                           Sample.picking)) in
  completion (run w 1 (Api.analyzeVideo Sample.long_clip "user-1") tt)
  = inr Sample.the_analysis
  /\ step h' = edit
  /\ bpm h' = 128%Z
  /\ prompt h' = "dark cinematic pulse"
  /\ variations h' = Sample.three.
Proof.
  intros w h'. split; [reflexivity |].
  destruct (handleUpload_success_seeds_editor w Sample.picking Sample.long_clip
              Sample.the_analysis eq_refl)
    as (Hstep & _ & Hp & _ & Hb & _ & _ & _ & Hv & _).
  repeat split; assumption.
Defined.

(** X2.  Without an analysis [handleGenerate] does nothing: no request, no
    change of the store, in any world. *)
Theorem handleGenerate_without_analysis_is_noop :
  forall (w : World) (n : nat) (c s : Store),
    analysis (home c) = None ->
    run w n (Page.handleGenerate c) s = mkOutcome s [] (inr tt).
Proof.
  intros w n c s Ha. unfold Page.handleGenerate. rewrite Ha. reflexivity.
Qed.

Lemma handleGenerate_without_analysis_is_noop_witness :
  analysis (home Sample.fresh) = None
  /\ Page.dispatch (Sample.online None) Page.handleGenerate Sample.fresh
     = mkOutcome Sample.fresh [] (inr tt).
Proof.
  split; [reflexivity |].
  exact (handleGenerate_without_analysis_is_noop
           (Sample.online None) 0 Sample.fresh Sample.fresh eq_refl).
Defined.

(** X3.  Without a video file or without an analysis [handlePickVariation]
    does nothing: no merge request, no recorded selection. *)
Theorem handlePickVariation_without_inputs_is_noop :
  forall (w : World) (n : nat) (c s : Store) (variation : MusicVariation),
    videoFile (home c) = None \/ analysis (home c) = None ->
    run w n (Page.handlePickVariation c variation) s = mkOutcome s [] (inr tt).
Proof.
  intros w n c s variation [H | H]; unfold Page.handlePickVariation; rewrite H.
  - reflexivity.
  - now destruct (videoFile (home c)).
Qed.

Lemma handlePickVariation_without_inputs_is_noop_witness :
  (videoFile (home Sample.fresh) = None \/ analysis (home Sample.fresh) = None)
  /\ Page.dispatch (Sample.online None)
       (fun c => Page.handlePickVariation c Sample.v1) Sample.fresh
     = mkOutcome Sample.fresh [] (inr tt).
Proof.
  assert (H : videoFile (home Sample.fresh) = None \/ analysis (home Sample.fresh) = None)
    by (left; reflexivity).
  split; [exact H |].
  exact (handlePickVariation_without_inputs_is_noop
           (Sample.online None) 0 Sample.fresh Sample.fresh Sample.v1 H).
Defined.

(** X4.  When the merge call fails, the message is recorded and the step is
    back at [pick]; the variation stays recorded as the selection, and
    nothing else changes: the variations are still there to pick from and
    no merged URL is stored. *)
Theorem handlePickVariation_failure_returns_to_pick :
  forall (w : World) (s : Store) (file : File) (a : VideoAnalysis)
         (variation : MusicVariation) (e : thrown),
    videoFile (home s) = Some file ->
    analysis (home s) = Some a ->
    completion
      (run w 0 (Api.mergeVideoAudio file (file_id variation) "social" (segments a)) tt)
    = inl e ->
    final (Page.dispatch w (fun c => Page.handlePickVariation c variation) s)
    = over_home
        (fun h =>
           put_step pick
             (put_error (message_or e "Merge failed")
                (put_selectedVariation (Some variation) h))) s.
Proof.
  intros w s file a variation e Hf Ha Hfail.
  unfold Page.dispatch.
  rewrite (handlePickVariation_final w 0 s s file a variation Hf Ha), Hfail.
  reflexivity.
Qed.

Lemma handlePickVariation_failure_returns_to_pick_witness :
  let w := Sample.refusing "track expired" in
  let s' := final (Page.dispatch w (fun c => Page.handlePickVariation c Sample.v3)
                     Sample.picking) in
  completion
    (run w 0 (Api.mergeVideoAudio Sample.clip "f-3" "social"
                (segments Sample.the_analysis)) tt)
  = inl (Error "track expired")
  /\ step (home s') = pick
  /\ error (home s') = "track expired"
  /\ selectedVariation (home s') = Some Sample.v3
  /\ variations (home s') = Sample.three
  /\ mergedVideoUrl (home s') = "".
Proof.
  intros w s'. split; [reflexivity |].
  subst s'.
  rewrite (handlePickVariation_failure_returns_to_pick
             w Sample.picking Sample.clip Sample.the_analysis Sample.v3
             (Error "track expired") eq_refl eq_refl eq_refl).
  repeat split.
Defined.

(** X5.  The requests of [handleGenerate].  The generate request carries the
    composition of the store (prompt, negative prompt, BPM), the mood and
    the style suggestions of the analysis, and the identity token.  The
    balance request follows only when the generate call resolved: a failed
    generation is never followed by a refresh. *)
Theorem handleGenerate_requests :
  forall (w : World) (s : Store) (a : VideoAnalysis),
    analysis (home s) = Some a ->
    fetches (trace (Page.dispatch w Page.handleGenerate s)) =
    match completion
            (run w 0
               (Api.generateVariations (prompt (home s)) (negativePrompt (home s))
                  (overall_mood a) (bpm (home s)) (userIdRef (home s))
                  (style_suggestions a)) tt) with
    | inl _ => [generate_request s a]
    | inr _ => [generate_request s a; balance_request s]
    end.
Proof.
  intros w s a Ha.
  unfold Page.dispatch, Page.handleGenerate, Page.refreshCredits. rewrite Ha. cbn.
  run_down. rewrite generateVariations_trace.
  destruct (completion (run w 0 (Api.generateVariations _ _ _ _ _ _) tt))
    as [e | result]; cbn.
  - reflexivity.
  - run_down. rewrite getCredits_trace.
    destruct (completion (run w 1 (Api.getCredits _) tt)) as [e | balance]; reflexivity.
Qed.

Lemma handleGenerate_requests_witness :
  analysis (home Sample.editing) = Some Sample.the_analysis
  /\ fetches (trace (Page.dispatch (Sample.offline None) Page.handleGenerate Sample.editing))
     = [generate_request Sample.editing Sample.the_analysis]
  /\ fetches (trace (Page.dispatch (Sample.online None) Page.handleGenerate Sample.editing))
     = [generate_request Sample.editing Sample.the_analysis;
        balance_request Sample.editing].
Proof.
  split; [reflexivity |]. split.
  - exact (handleGenerate_requests (Sample.offline None) Sample.editing
             Sample.the_analysis eq_refl).
  - exact (handleGenerate_requests (Sample.online None) Sample.editing
             Sample.the_analysis eq_refl).
Defined.

(** X6.  The mount effect of [Home].  It issues the initialize request with the
    identity token and never throws.  When the call resolves the balance
    is stored; when it rejects the store is left as it was: no error is
    shown and the balance stays unset. *)
Theorem onMount_stores_or_ignores :
  forall (w : World) (s : Store),
    let r := Page.dispatch w Page.onMount s in
    completion r = inr tt
    /\ fetches (trace r)
       = [("/api/credits/initialize",
           mkInit "POST" [("x-user-id", userIdRef (home s))] None)]
    /\ final r =
       match completion (run w 0 (Api.initializeCredits (userIdRef (home s))) tt) with
       | inl _ => s
       | inr balance => over_home (put_credits (Some balance)) s
       end.
Proof.
  intros w s r. subst r. unfold Page.dispatch, Page.onMount.
  rewrite run_not_awaited. cbn. run_down.
  assert (Ht : trace (run w 0 (Api.initializeCredits (userIdRef (home s))) tt)
               = [Performed (Fetch CreditsInitialize
                               (mkInit "POST" [("x-user-id", userIdRef (home s))] None))]).
  { unfold Api.initializeCredits, Api.fetch, perform; cbn.
    destruct (w _ _ 0%nat) as [e | [json | [e | d]]]; reflexivity. }
  rewrite Ht.
  destruct (completion (run w 0 (Api.initializeCredits _) tt)) as [e | balance]; cbn;
    repeat split.
Qed.

(* ================================================================== *)
(** * The HTTP client *)
(* ================================================================== *)





(** X8.  No retry, and who is identified.  Whatever the answer (a rejected
    [fetch], an error status, a body that does or does not parse), each
    operation of the client performs exactly one request.  The analyze,
    generate and credits requests carry the caller's token as [x-user-id];
    the merge request carries no header. *)
Theorem client_requests_once :
  forall (w : World) (n : nat) (file : File) (tok : string)
         (p np m : string) (b : Z) (ss : list StyleSuggestion)
         (id mix : string) (segs : list VideoSegment),
    fetches (trace (run w n (Api.analyzeVideo file tok) tt))
    = [("/api/video/analyze",
        mkInit "POST" [("x-user-id", tok)] (Some (FormData [("file", EntryFile file)])))]
    /\ fetches (trace (run w n (Api.generateVariations p np m b tok ss) tt))
       = [("/api/music/generate-variations",
           mkInit "POST" [("Content-Type", "application/json"); ("x-user-id", tok)]
             (Some (JsonText (mkGenerateBody p np m b ss))))]
    /\ fetches (trace (run w n (Api.mergeVideoAudio file id mix segs) tt))
       = [("/api/music/merge",
           mkInit "POST" []
             (Some (FormData
                      [("video", EntryFile file);
                       ("file_id", EntryString id);
                       ("mix_mode", EntryString mix);
                       ("segments_json", EntryJson segs)])))]
    /\ fetches (trace (run w n (Api.getCredits tok) tt))
       = [("/api/credits/balance", mkInit "GET" [("x-user-id", tok)] None)]
    /\ fetches (trace (run w n (Api.initializeCredits tok) tt))
       = [("/api/credits/initialize", mkInit "POST" [("x-user-id", tok)] None)].
Proof.
  intros.
  rewrite analyzeVideo_trace, generateVariations_trace, mergeVideoAudio_trace,
    getCredits_trace.
  repeat split.
  unfold Api.initializeCredits, Api.fetch, perform; cbn.
  destruct (w _ _ n) as [e | [json | [e | d]]]; reflexivity.
Qed.

(* ================================================================== *)
(** * The upload validator, the other cases *)
(* ================================================================== *)

(** X9.  [validate] on bytes.  A file passes exactly when its type is one of
    the four allowed and its size is at most 50 * 1024 * 1024 bytes; a
    file of an allowed type that is larger, be it by one byte, gets the
    size reason. *)
Theorem validate_decides_type_and_size :
  forall file : File,
    (validate file = None <->
     In (type file) ["video/mp4"; "video/quicktime"; "video/webm"; "video/x-msvideo"]
     /\ (size file <= 50 * 1024 * 1024)%N)
    /\ (In (type file) ["video/mp4"; "video/quicktime"; "video/webm"; "video/x-msvideo"] ->
        (50 * 1024 * 1024 < size file)%N ->
        validate file = Some "File too large. Maximum is 50MB.").
Proof.
  intros file. fold ALLOWED_TYPES.
  assert (Hsz : Qle_bool (size_in_MB file) (inject_Z MAX_SIZE_MB) = false
                <-> (50 * 1024 * 1024 < size file)%N).
  { rewrite <- not_true_iff_false, size_in_MB_le. lia. }
  split; [split |].
  - intros Hv. unfold validate in Hv.
    destruct (includes ALLOWED_TYPES (type file)) eqn:Ht; cbn in Hv; [| discriminate].
    destruct (Qle_bool (size_in_MB file) (inject_Z MAX_SIZE_MB)) eqn:Hs; cbn in Hv;
      [| discriminate].
    split; [now apply includes_In | now apply size_in_MB_le].
  - intros [Ht Hs]. now apply validate_passes.
  - intros Ht Hs. unfold validate.
    apply includes_In in Ht. rewrite Ht. cbn [negb].
    apply Hsz in Hs. rewrite Hs. reflexivity.
Qed.

(** X10.  A file of an allowed type over the size limit is turned away by
    [handleFile] with the size reason: no object URL is created, the
    duration is not probed, and [onUpload] is not called, whatever it
    is. *)
Theorem handleFile_rejects_oversized_file :
  forall (w : World) (n : nat) (s : Store)
         (onUpload : File -> prog Store unit) (file : File),
    In (type file) ["video/mp4"; "video/quicktime"; "video/webm"; "video/x-msvideo"] ->
    (50 * 1024 * 1024 < size file)%N ->
    run w n (handleFile onUpload file) s
    = mkOutcome
        (over_videoUpload
           (fun u => mkVideoUpload (dragging u) "File too large. Maximum is 50MB.") s)
        [] (inr tt).
Proof.
  intros w n s onUpload file Ht Hs.
  assert (Hv : validate file = Some "File too large. Maximum is 50MB.").
  { fold ALLOWED_TYPES in Ht. unfold validate.
    apply includes_In in Ht. rewrite Ht. cbn [negb].
    assert (Hq : Qle_bool (size_in_MB file) (inject_Z MAX_SIZE_MB) = false).
    { rewrite <- not_true_iff_false, size_in_MB_le. lia. }
    rewrite Hq. reflexivity. }
  unfold handleFile. rewrite Hv. cbn. now destruct s.
Qed.

Lemma handleFile_rejects_oversized_file_witness :
  let file := mkFile "big.mp4" "video/mp4" (50 * 1024 * 1024 + 1) in
  In (type file) ["video/mp4"; "video/quicktime"; "video/webm"; "video/x-msvideo"]
  /\ (50 * 1024 * 1024 < size file)%N
  /\ run (Sample.online (Some (Num 5))) 0
       (handleFile (Page.onUpload Sample.fresh) file) Sample.fresh
     = mkOutcome
         (over_videoUpload
            (fun u => mkVideoUpload (dragging u) "File too large. Maximum is 50MB.")
            Sample.fresh)
         [] (inr tt).
Proof.
  intro file.
  assert (Ht : In (type file)
                 ["video/mp4"; "video/quicktime"; "video/webm"; "video/x-msvideo"])
    by (left; reflexivity).
  assert (Hs : (50 * 1024 * 1024 < size file)%N) by (cbn; lia).
  split; [exact Ht |]. split; [exact Hs |].
  exact (handleFile_rejects_oversized_file (Sample.online (Some (Num 5))) 0 Sample.fresh
           (Page.onUpload Sample.fresh) file Ht Hs).
Defined.

(** X11.  When the browser never fires [loadedmetadata] for a file that passed
    [validate], [handleFile] ends silently: no validation error is shown,
    [onUpload] is not called, and the object URL it created is not
    revoked. *)
Theorem handleFile_silent_without_metadata :
  forall (w : World) (n : nat) (s : Store)
         (onUpload : File -> prog Store unit) (file : File),
    validate file = None ->
    w _ (LoadedMetadata (w _ (CreateObjectURL file) n)) (S n) = None ->
    run w n (handleFile onUpload file) s
    = mkOutcome
        (over_videoUpload (fun u => mkVideoUpload (dragging u) "") s)
        [Performed (CreateObjectURL file);
         Performed (LoadedMetadata (w _ (CreateObjectURL file) n))]
        (inr tt).
Proof.
  intros w n s onUpload file Hv Hprobe.
  unfold handleFile, checkDuration. rewrite Hv. cbn. rewrite Hprobe. cbn.
  now destruct s.
Qed.

Lemma handleFile_silent_without_metadata_witness :
  let w := Sample.online None in
  validate Sample.clip = None
  /\ run w 0 (handleFile (Page.onUpload Sample.fresh) Sample.clip) Sample.fresh
     = mkOutcome Sample.fresh
         [Performed (CreateObjectURL Sample.clip); Performed (LoadedMetadata "blob:0")]
         (inr tt).
Proof.
  intro w. split; [reflexivity |].
  exact (handleFile_silent_without_metadata w 0 Sample.fresh
           (Page.onUpload Sample.fresh) Sample.clip eq_refl eq_refl).
Defined.

(** X12.  Handing over.  For a file that passed [validate] and whose metadata
    loads with a duration that does not exceed 30 s ([NaN] included, as
    [NaN > 30] is false), [handleFile] probes, revokes the object URL,
    and then does exactly what [onUpload file] does, once, from the store
    with the validation error cleared. *)
Theorem handleFile_hands_over_to_onUpload :
  forall (w : World) (n : nat) (s : Store)
         (onUpload : File -> prog Store unit) (file : File) (duration : number),
    validate file = None ->
    w _ (LoadedMetadata (w _ (CreateObjectURL file) n)) (S n) = Some duration ->
    ~ exceeds duration 30 ->
    run w n (handleFile onUpload file) s
    = let r := run w (3 + n) (onUpload file)
                 (over_videoUpload (fun u => mkVideoUpload (dragging u) "") s) in
      mkOutcome (final r) (probe_trace w n file ++ trace r)%list (completion r).
Proof.
  intros w n s onUpload file duration Hv Hprobe Hshort.
  assert (Hgt : gt duration (inject_Z MAX_DURATION_S) = false).
  { apply not_true_iff_false. intros H. apply Hshort.
    now apply gt_exceeds in H. }
  unfold handleFile, checkDuration. rewrite Hv. cbn. rewrite Hprobe. cbn.
  rewrite Hgt. reflexivity.
Qed.

Lemma handleFile_hands_over_to_onUpload_witness :
  let w := Sample.online (Some NaN) in
  let r := run w 0 (handleFile (Page.onUpload Sample.fresh) Sample.clip) Sample.fresh in
  validate Sample.clip = None
  /\ ~ exceeds NaN 30
  /\ step (home (final r)) = edit
  /\ map fst (fetches (trace r)) = ["/api/video/analyze"].
Proof.
  intros w r.
  assert (Hshort : ~ exceeds NaN 30) by (intros H; exact H).
  split; [reflexivity |]. split; [exact Hshort |].
  subst r.
  rewrite (handleFile_hands_over_to_onUpload w 0 Sample.fresh
             (Page.onUpload Sample.fresh) Sample.clip NaN eq_refl eq_refl Hshort).
  split; reflexivity.
Defined.

(* ================================================================== *)
(** * The variation picker: playback, and confirming through the page *)
(* ================================================================== *)

(** [togglePlay] only writes the picker's own cells. *)
Lemma togglePlay_store (w : World) n (s : Store) (v : MusicVariation) (a : Audio) :
  audioRef (variationPicker s) = Some a ->
  final (run w n (togglePlay s v) s)
  = over_variationPicker
      (fun _ =>
         if playing_is (playing (variationPicker s)) (file_id v)
         then mkVariationPicker None (selected (variationPicker s))
                (Some (mkAudio (src a) true))
         else mkVariationPicker (Some (file_id v)) (file_id v)
                (Some (mkAudio (audio_url v) false))) s.
Proof.
  intros Ha. unfold togglePlay. rewrite Ha.
  destruct s as [h u p]. cbn in Ha |- *.
  destruct (playing_is _ _); cbn; unfold over_variationPicker; cbn;
    rewrite Ha; reflexivity.
Qed.

(** X13.  One thing plays at a time, and it is what the picker shows.  In every
    store a mounted picker goes through, a variation is marked as playing
    only if it is the selected one and the audio element is playing (not
    paused) the URL of a listed variation with that identifier. *)
Theorem picker_playing_is_selected_and_audible :
  forall (vs : list MusicVariation) (s : Store),
    picker_reachable vs s ->
    playing_inv vs (variationPicker s).
Proof.
  intros vs s Hreach.
  induction Hreach as [s | w n s v Hreach IH Hin | w n s Hreach IH].
  - intros id Hp. discriminate Hp.
  - destruct (picker_reachable_inv vs s Hreach) as (Haudio & _ & _).
    destruct (audioRef (variationPicker s)) as [a |] eqn:Ha; [| contradiction].
    rewrite (togglePlay_final w n s v a Ha).
    destruct (playing_is _ _); cbn.
    + intros id Hp. discriminate Hp.
    + intros id [= <-]. split; [reflexivity |].
      exists v, (mkAudio (audio_url v) false). now repeat split.
  - intros id Hp. discriminate Hp.
Qed.

Lemma picker_playing_is_selected_and_audible_witness :
  let s := final (run (Sample.online None) 0 (togglePlay Sample.picking Sample.v3)
                    Sample.picking) in
  picker_reachable Sample.three s
  /\ playing (variationPicker s) = Some "f-3"
  /\ selected (variationPicker s) = "f-3"
  /\ audioRef (variationPicker s) = Some (mkAudio "/audio/f-3/track" false).
Proof.
  intro s.
  assert (Hreach : picker_reachable Sample.three s).
  { apply reach_togglePlay.
    - exact (reach_mount Sample.three Sample.picking).
    - cbn. right; right; left; reflexivity. }
  split; [exact Hreach |]. split; [reflexivity |].
  destruct (picker_playing_is_selected_and_audible Sample.three s Hreach "f-3" eq_refl)
    as (Hsel & _).
  split; [exact Hsel | reflexivity].
Defined.

(** X14.  Play, then pause.  Clicking a variation that is not the one playing
    starts it, whatever was playing before; clicking it again pauses the
    audio element on that same URL, marks nothing as playing and keeps the
    variation selected.  The state of [Home] is not touched. *)
Theorem togglePlay_twice_pauses_and_keeps_selection :
  forall (vs : list MusicVariation) (s : Store) (v : MusicVariation)
         (w1 w2 : World) (n1 n2 : nat),
    picker_reachable vs s ->
    playing (variationPicker s) <> Some (file_id v) ->
    let s1 := final (run w1 n1 (togglePlay s v) s) in
    let s2 := final (run w2 n2 (togglePlay s1 v) s1) in
    variationPicker s1
    = mkVariationPicker (Some (file_id v)) (file_id v)
        (Some (mkAudio (audio_url v) false))
    /\ variationPicker s2
       = mkVariationPicker None (file_id v) (Some (mkAudio (audio_url v) true))
    /\ home s2 = home s
    /\ videoUpload s2 = videoUpload s.
Proof.
  intros vs s v w1 w2 n1 n2 Hreach Hnot s1 s2.
  destruct (picker_reachable_inv vs s Hreach) as (Haudio & _ & _).
  destruct (audioRef (variationPicker s)) as [a |] eqn:Ha; [| contradiction].
  assert (Hoff : playing_is (playing (variationPicker s)) (file_id v) = false).
  { apply not_true_iff_false. intros H. apply Hnot. now apply playing_is_true. }
  assert (H1 : s1 = over_variationPicker
                      (fun _ => mkVariationPicker (Some (file_id v)) (file_id v)
                                  (Some (mkAudio (audio_url v) false))) s).
  { subst s1. rewrite (togglePlay_store w1 n1 s v a Ha), Hoff. reflexivity. }
  assert (H2 : s2 = over_variationPicker
                      (fun _ => mkVariationPicker None (file_id v)
                                  (Some (mkAudio (audio_url v) true))) s).
  { subst s2. rewrite H1.
    rewrite (togglePlay_store w2 n2
               (over_variationPicker
                  (fun _ => mkVariationPicker (Some (file_id v)) (file_id v)
                              (Some (mkAudio (audio_url v) false))) s)
               v (mkAudio (audio_url v) false) eq_refl).
    cbn. rewrite String.eqb_refl. reflexivity. }
  rewrite H1, H2. repeat split.
Qed.

Lemma togglePlay_twice_pauses_and_keeps_selection_witness :
  let w := Sample.online None in
  let s1 := final (run w 0 (togglePlay Sample.picking Sample.v2) Sample.picking) in
  let s2 := final (run w 0 (togglePlay s1 Sample.v2) s1) in
  picker_reachable Sample.three Sample.picking
  /\ playing (variationPicker Sample.picking) <> Some (file_id Sample.v2)
  /\ variationPicker s2
     = mkVariationPicker None "f-2" (Some (mkAudio "/audio/f-2/track" true))
  /\ home s2 = home Sample.picking.
Proof.
  intros w s1 s2.
  assert (Hreach : picker_reachable Sample.three Sample.picking)
    by exact (reach_mount Sample.three Sample.picking).
  assert (Hnot : playing (variationPicker Sample.picking) <> Some (file_id Sample.v2))
    by discriminate.
  split; [exact Hreach |]. split; [exact Hnot |].
  destruct (togglePlay_twice_pauses_and_keeps_selection
              Sample.three Sample.picking Sample.v2 w w 0 0 Hreach Hnot)
    as (_ & H2 & Hh & _).
  split; assumption.
Defined.

(** The requests of [handlePickVariation] are those of its merge call. *)
Lemma handlePickVariation_trace (w : World) (n : nat) (c s : Store)
    (file : File) (a : VideoAnalysis) (variation : MusicVariation) :
  videoFile (home c) = Some file ->
  analysis (home c) = Some a ->
  trace (run w n (Page.handlePickVariation c variation) s)
  = trace (run w n (Api.mergeVideoAudio file (file_id variation) "social" (segments a)) tt).
Proof.
  intros Hf Ha. unfold Page.handlePickVariation. rewrite Hf, Ha. cbn. run_down.
  destruct (completion (run w n (Api.mergeVideoAudio _ _ _ _) tt)); cbn; apply app_nil_r.
Qed.

(** X15.  Confirming through the page.  With a video file and an analysis in
    the store, and a selection that is the file identifier of a listed
    variation, the merge button issues exactly one request, the merge
    call for the selected identifier, and records a listed variation with
    that identifier as the selection; the button's handler itself never
    throws. *)
Theorem confirm_pick_merges_selected :
  forall (w : World) (s : Store) (file : File) (a : VideoAnalysis) (v0 : MusicVariation),
    videoFile (home s) = Some file ->
    analysis (home s) = Some a ->
    In v0 (variations (home s)) ->
    file_id v0 = selected (variationPicker s) ->
    let r := Page.dispatch w Page.confirm_pick s in
    completion r = inr tt
    /\ fetches (trace r) = [merge_request file a (selected (variationPicker s))]
    /\ exists v,
         In v (variations (home s))
         /\ file_id v = selected (variationPicker s)
         /\ selectedVariation (home (final r)) = Some v.
Proof.
  intros w s file a v0 Hf Ha Hin Hid r.
  destruct (find (fun v => String.eqb (file_id v) (selected (variationPicker s)))
              (variations (home s))) as [v |] eqn:Efind.
  - destruct (find_some _ _ Efind) as [Hvin Hveq].
    apply String.eqb_eq in Hveq.
    subst r. unfold Page.dispatch, Page.confirm_pick, handleSelect.
    rewrite Efind. unfold Page.onPick. rewrite run_not_awaited. cbn.
    split; [reflexivity |]. split.
    + rewrite (handlePickVariation_trace w 0 s s file a v Hf Ha),
        mergeVideoAudio_trace, Hveq. reflexivity.
    + exists v. split; [exact Hvin |]. split; [exact Hveq |].
      rewrite (handlePickVariation_final w 0 s s file a v Hf Ha).
      destruct (completion (run w 0 (Api.mergeVideoAudio _ _ _ _) tt));
        clear; destruct s as [h u p]; destruct h; reflexivity.
  - exfalso.
    pose proof (find_none _ _ Efind v0 Hin) as Hno. cbn in Hno.
    rewrite Hid, String.eqb_refl in Hno. discriminate Hno.
Qed.

Lemma confirm_pick_merges_selected_witness :
  let w := Sample.online None in
  let s := final (run w 0 (togglePlay Sample.picking Sample.v3) Sample.picking) in
  let r := Page.dispatch w Page.confirm_pick s in
  In Sample.v3 (variations (home s))
  /\ file_id Sample.v3 = selected (variationPicker s)
  /\ completion r = inr tt
  /\ fetches (trace r) = [merge_request Sample.clip Sample.the_analysis "f-3"].
Proof.
  intros w s r.
  assert (Hin : In Sample.v3 (variations (home s)))
    by (cbn; right; right; left; reflexivity).
  split; [exact Hin |]. split; [reflexivity |].
  destruct (confirm_pick_merges_selected w s Sample.clip Sample.the_analysis Sample.v3
              eq_refl eq_refl Hin eq_refl)
    as (Hc & Ht & _).
  split; assumption.
Defined.

(* ================================================================== *)
(** * A session of the wizard *)
(* ================================================================== *)

(** What [handleFile] does, case by case, for every [onUpload]. *)
Lemma handleFile_cases (w : World) (n : nat) (s : Store)
    (onUpload : File -> prog Store unit) (file : File) :
  run w n (handleFile onUpload file) s =
  let cleared := over_videoUpload (fun u => mkVideoUpload (dragging u) "") s in
  let video_src := w _ (CreateObjectURL file) n in
  match truthy (validate file) with
  | Some msg =>
      mkOutcome (over_videoUpload (fun u => mkVideoUpload (dragging u) msg) s) [] (inr tt)
  | None =>
      match w _ (LoadedMetadata video_src) (S n) with
      | None =>
          mkOutcome cleared
            [Performed (CreateObjectURL file); Performed (LoadedMetadata video_src)]
            (inr tt)
      | Some duration =>
          if gt duration (inject_Z MAX_DURATION_S) then
            mkOutcome
              (over_videoUpload
                 (fun u => mkVideoUpload (dragging u) (too_long_message duration)) s)
              (probe_trace w n file) (inr tt)
          else
            let r := run w (3 + n) (onUpload file) cleared in
            mkOutcome (final r) (probe_trace w n file ++ trace r)%list (completion r)
      end
  end.
Proof.
  unfold handleFile, checkDuration.
  destruct (truthy (validate file)) as [msg |]; cbn.
  - now destruct s.
  - destruct (w _ (LoadedMetadata _) (S n)) as [duration |]; cbn.
    + destruct (gt duration (inject_Z MAX_DURATION_S)); cbn.
      * now destruct s.
      * reflexivity.
    + now destruct s.
Qed.

(** The state of [Home] after the upload view handled a file: untouched
    (the file was turned away, or its metadata never loaded), or as
    [handleUpload] leaves it. *)
Lemma upload_intent_home (w : World) (s : Store) (file : File) :
  let h' := home (final (Page.dispatch w (fun c => Page.upload_intent c file) s)) in
  h' = home s
  \/ (exists url e,
        h' = put_step upload
               (put_error (message_or e "Analysis failed")
                  (put_videoUrl url (put_videoFile (Some file) (home s)))))
  \/ (exists url result,
        h' = put_step edit
               (put_bpm (Types.bpm result)
                  (put_negativePrompt (negative_prompt result)
                     (put_prompt (primary_prompt result)
                        (put_analysis (Some result)
                           (put_error ""
                              (put_videoUrl url (put_videoFile (Some file) (home s))))))))).
Proof.
  intros h'. subst h'.
  unfold Page.dispatch, Page.upload_intent. rewrite handleFile_cases. cbv zeta.
  destruct (truthy (validate file)) as [msg |]; [now left |].
  destruct (w _ (LoadedMetadata _) 1%nat) as [duration |]; [| now left].
  destruct (gt duration (inject_Z MAX_DURATION_S)); [now left |].
  cbn [final]. unfold Page.onUpload. rewrite run_not_awaited. cbn [final].
  rewrite handleUpload_final. cbv zeta.
  destruct (completion (run w _ (Api.analyzeVideo file (userIdRef (home s))) tt))
    as [e | result]; right; [left | right].
  - exists (w _ (CreateObjectURL file) 3%nat), e. now destruct s.
  - exists (w _ (CreateObjectURL file) 3%nat), result. now destruct s.
Qed.

(** The state of [Home] after the generate button. *)
Lemma onGenerate_home (w : World) (s : Store) (a : VideoAnalysis) :
  analysis (home s) = Some a ->
  let h' := home (final (Page.dispatch w Page.onGenerate s)) in
  (exists e, h' = put_step edit (put_error e (home s)))
  \/ (exists e vs, h' = put_step edit (put_error e (put_variations vs (home s))))
  \/ (exists b vs,
        h' = put_step pick (put_credits (Some b) (put_variations vs (put_error "" (home s))))).
Proof.
  intros Ha h'. subst h'. unfold Page.dispatch, Page.onGenerate.
  rewrite run_not_awaited. cbn [final].
  rewrite (handleGenerate_final w 0 s s a Ha).
  destruct (completion (run w 0 (Api.generateVariations _ _ _ _ _ _) tt))
    as [e | result].
  - left. exists (message_or e "Generation failed"). now destruct s.
  - destruct (completion (run w 1 (Api.getCredits _) tt)) as [e | b]; right.
    + left. exists (message_or e "Generation failed"), (Types.variations result).
      now destruct s.
    + right. exists b, (Types.variations result). now destruct s.
Qed.

(** The state of [Home] after the merge button. *)
Lemma confirm_pick_home (w : World) (s : Store) (file : File) (a : VideoAnalysis) :
  videoFile (home s) = Some file ->
  analysis (home s) = Some a ->
  let h' := home (final (Page.dispatch w Page.confirm_pick s)) in
  h' = home s
  \/ (exists v e,
        In v (variations (home s))
        /\ h' = put_step pick (put_error e (put_selectedVariation (Some v) (home s))))
  \/ (exists v url,
        In v (variations (home s))
        /\ h' = put_step done
                  (put_mergedVideoUrl url
                     (put_selectedVariation (Some v) (put_error "" (home s))))).
Proof.
  intros Hf Ha h'. subst h'. unfold Page.dispatch, Page.confirm_pick, handleSelect.
  destruct (find _ (variations (home s))) as [v |] eqn:Efind; [| now left].
  destruct (find_some _ _ Efind) as [Hin _].
  unfold Page.onPick. rewrite run_not_awaited. cbn [final].
  rewrite (handlePickVariation_final w 0 s s file a v Hf Ha).
  destruct (completion (run w 0 (Api.mergeVideoAudio _ _ _ _) tt)) as [e | result];
    right; [left | right].
  - exists v, (message_or e "Merge failed"). split; [exact Hin | now destruct s].
  - exists v, (video_url result). split; [exact Hin | now destruct s].
Qed.

(** The state of [Home] after its mount effect. *)
Lemma onMount_home (w : World) (s : Store) :
  let h' := home (final (Page.dispatch w Page.onMount s)) in
  h' = home s \/ exists b, h' = put_credits (Some b) (home s).
Proof.
  intros h'. subst h'. unfold Page.dispatch, Page.onMount.
  rewrite run_not_awaited. cbn [final]. run_down.
  destruct (completion (run w 0 (Api.initializeCredits _) tt)) as [e | b]; cbn.
  - now left.
  - right. exists b. now destruct s.
Qed.

(** Solves [home_inv] of an updated record from [home_inv] of the
    original one. *)
Ltac home_inv_solve h Hinv :=
  destruct h; unfold home_inv, durable in *; cbn in *;
  destruct Hinv as (Hd & Hu & Hfa & Hsel);
  repeat split;
  try discriminate; try tauto; try assumption;
  try (intros; apply Hfa; congruence);
  try (intros; eauto).

(** X16.  The wizard between intents.  Throughout a session, in every world:
    the step at rest is one of [upload], [edit], [pick], [done], never an
    in-flight step; the identity token is the one the session started
    with; past the upload step there are a video file and an analysis,
    so the guards of [handleGenerate] and [handlePickVariation] pass; and
    at [done] the recorded selection is one of the listed variations. *)
Theorem session_keeps_home_invariant :
  forall (userId : string) (s : Store),
    session userId s ->
    home_inv userId (home s).
Proof.
  intros userId s Hs.
  induction Hs as [u p | w s Hs IH | s Hs IH | w s i Hs IH Hen].
  - unfold home_inv, durable; cbn. repeat split; try discriminate; try tauto.
  - destruct (onMount_home w s) as [-> | [b ->]]; [exact IH |].
    home_inv_solve (home s) IH.
  - cbn. exact IH.
  - unfold Page.dispatch.
    destruct i; cbn [handler enabled] in *.
    + (* ChooseFile *)
      pose proof (upload_intent_home w s file) as H.
      unfold Page.dispatch in H. cbv zeta in H.
      destruct H as [-> | [(url & e & ->) | (url & result & ->)]]; [exact IH | |].
      * home_inv_solve (home s) IH.
      * home_inv_solve (home s) IH.
    + cbn. home_inv_solve (home s) IH.
    + cbn. home_inv_solve (home s) IH.
    + cbn. home_inv_solve (home s) IH.
    + (* Generate *)
      destruct Hen as [Hstep Han].
      destruct (analysis (home s)) as [a |] eqn:Ha; [| contradiction].
      pose proof (onGenerate_home w s a Ha) as H.
      unfold Page.dispatch in H. cbv zeta in H.
      destruct H as [(e & ->) | [(e & vs & ->) | (b & vs & ->)]];
        home_inv_solve (home s) IH.
    + (* NewVideo *)
      cbn. home_inv_solve (home s) IH.
    + (* TogglePlay *)
      assert (Hh : home (final (run w 0 (togglePlay s variation) s)) = home s).
      { unfold togglePlay.
        destruct (audioRef (variationPicker s)); [| reflexivity].
        destruct (playing_is _ _); reflexivity. }
      rewrite Hh. exact IH.
    + cbn. exact IH.
    + (* ConfirmPick *)
      assert (Hne : step (home s) <> upload) by (rewrite Hen; discriminate).
      destruct IH as (Hd & Hu & Hfa & Hsel).
      destruct (Hfa Hne) as [Hf Ha].
      destruct (videoFile (home s)) as [file |] eqn:Ef; [| contradiction].
      destruct (analysis (home s)) as [a |] eqn:Ea; [| contradiction].
      assert (IH : home_inv userId (home s)).
      { unfold home_inv. rewrite Ef, Ea. now repeat split. }
      clear Hd Hu Hfa Hsel Hf Ha.
      pose proof (confirm_pick_home w s file a Ef Ea) as H.
      unfold Page.dispatch in H. cbv zeta in H.
      destruct H as [-> | [(v & e & Hin & ->) | (v & url & Hin & ->)]]; [exact IH | |].
      * home_inv_solve (home s) IH.
      * home_inv_solve (home s) IH.
    + cbn. home_inv_solve (home s) IH.
    + cbn. home_inv_solve (home s) IH.
    + cbn. home_inv_solve (home s) IH.
Qed.

Lemma session_keeps_home_invariant_witness :
  let w := Sample.online (Some (Num (12 # 1))) in
  let s1 := final (Page.dispatch w (handler (ChooseFile Sample.clip)) Sample.fresh) in
  let s2 := final (Page.dispatch w (handler Generate) s1) in
  let s3 := final (Page.dispatch w (handler ConfirmPick)
                     (over_videoUpload (fun _ => mkVideoUpload false "")
                        (mount (variations (home s2)) s2))) in
  session "user-1" s3
  /\ step (home s3) = done
  /\ home_inv "user-1" (home s3).
Proof.
  intros w s1 s2 s3.
  assert (H1 : session "user-1" s1).
  { apply session_intent; [apply session_start | reflexivity]. }
  assert (H2 : session "user-1" s2).
  { apply session_intent; [exact H1 |]. split; [reflexivity | discriminate]. }
  assert (H3 : session "user-1" s3).
  { apply session_intent; [apply session_view; exact H2 | reflexivity]. }
  split; [exact H3 |]. split; [reflexivity |].
  exact (session_keeps_home_invariant "user-1" s3 H3).
Defined.

(* ================================================================== *)
(** * The progress stepper *)
(* ================================================================== *)

(** X17.  The stepper follows the wizard.  As the step advances through the
    wizard the index of the active entry never decreases, and it always
    is the index of an existing entry of [PROGRESS_STEPS]; it is 0 at
    [upload] and the last entry at [done]. *)
Theorem progress_index_follows_wizard :
  forall a b : Step,
    (position a <= position b)%nat ->
    (Progress.getProgressIndex a <= Progress.getProgressIndex b)%nat
    /\ (Progress.getProgressIndex b < List.length Progress.PROGRESS_STEPS)%nat
    /\ Progress.getProgressIndex upload = 0%nat
    /\ Progress.getProgressIndex done = (List.length Progress.PROGRESS_STEPS - 1)%nat.
Proof.
  intros a b Hab.
  destruct a, b; cbn in *; repeat split; lia.
Qed.

Lemma progress_index_follows_wizard_witness :
  (position generating <= position pick)%nat
  /\ (Progress.getProgressIndex generating <= Progress.getProgressIndex pick)%nat.
Proof.
  assert (H : (position generating <= position pick)%nat) by (cbn; lia).
  split; [exact H |].
  exact (proj1 (progress_index_follows_wizard generating pick H)).
Defined.

(* ================================================================== *)
(** * The loading view: the timers of the substeps *)
(* ================================================================== *)

(** ** Whole numbers in binary64 *)

Lemma odd_part_spec (p : positive) :
  (0 <= snd (odd_part p))%Z
  /\ Zpos p = (Zpos (fst (odd_part p)) * 2 ^ snd (odd_part p))%Z.
Proof.
  induction p as [p IH | p IH |]; cbn [odd_part].
  - cbn [fst snd]. split; [lia |]. now rewrite Z.mul_1_r.
  - destruct (odd_part p) as [o k]. cbn [fst snd] in *.
    destruct IH as [Hk Hp]. split; [lia |].
    rewrite Z.pow_add_r, Z.pow_1_r by lia.
    change (Zpos p~0) with (2 * Zpos p)%Z. rewrite Hp. ring.
  - cbn [fst snd]. split; [lia | reflexivity].
Qed.

Lemma normal_double (m e : Z) : normal (2 * m) e = normal m (e + 1).
Proof.
  destruct m as [| p | p]; cbn [Z.mul normal Pos.mul]; [reflexivity | |].
  - change (normal (Zpos p~0) e = normal (Zpos p) (e + 1)).
    cbn [normal odd_part]. destruct (odd_part p) as [o k].
    f_equal. lia.
  - change (normal (Zneg p~0) e = normal (Zneg p) (e + 1)).
    cbn [normal odd_part]. destruct (odd_part p) as [o k].
    f_equal. lia.
Qed.

Lemma normal_shift (m e k : Z) :
  (0 <= k)%Z -> normal (m * 2 ^ k) e = normal m (e + k).
Proof.
  intros Hk. revert m e. pattern k. apply natlike_ind; [| | exact Hk].
  - intros m e. now rewrite Z.pow_0_r, Z.mul_1_r, Z.add_0_r.
  - intros j Hj IH m e.
    rewrite Z.pow_succ_r by exact Hj.
    replace (m * (2 * 2 ^ j))%Z with (2 * (m * 2 ^ j))%Z by ring.
    rewrite normal_double, IH. f_equal. lia.
Qed.

Lemma normal_spec (z : Z) :
  exists m e, normal z 0 = Finite m e /\ (0 <= e)%Z /\ z = (m * 2 ^ e)%Z.
Proof.
  destruct z as [| p | p]; cbn [normal].
  - exists 0%Z, 0%Z. repeat split; lia.
  - pose proof (odd_part_spec p) as [Hk Hp].
    destruct (odd_part p) as [o k]. cbn [fst snd] in *.
    exists (Zpos o), k. split; [reflexivity |]. split; [exact Hk | exact Hp].
  - pose proof (odd_part_spec p) as [Hk Hp].
    destruct (odd_part p) as [o k]. cbn [fst snd] in *.
    exists (Zneg o), k. split; [reflexivity |]. split; [exact Hk |].
    change (Zneg p) with (- Zpos p)%Z. rewrite Hp.
    change (Zneg o) with (- Zpos o)%Z. ring.
Qed.

(** Below 2^53 nothing is rounded. *)
Lemma binary64_exact (M e : Z) :
  (0 <= e)%Z -> (Z.abs (M * 2 ^ e) < 2 ^ 53)%Z ->
  binary64 M e = normal (M * 2 ^ e) 0.
Proof.
  intros He Hb. unfold binary64.
  assert (Hpow : (1 <= 2 ^ e)%Z) by (apply Z.pow_pos_nonneg with (a := 2%Z) in He; lia).
  rewrite Z.abs_mul, (Z.abs_eq (2 ^ e)) in Hb by lia.
  assert (Hlog : (0 <= Z.log2 (Z.abs M) < 53)%Z).
  { split; [apply Z.log2_nonneg |].
    destruct (Z.eq_dec M 0) as [-> | HM]; [cbn; lia |].
    apply Z.log2_lt_pow2; [lia | nia]. }
  replace (Z.max 0 (Z.max (Z.log2 (Z.abs M) + 1 - 53) (- 1074 - e))) with 0%Z by lia.
  cbn [Z.eqb]. cbv zeta.
  destruct (Z.eqb_spec M 0) as [-> | HM]; [now rewrite Z.mul_0_l |].
  assert (He53 : (e < 53)%Z).
  { apply (Z.pow_lt_mono_r_iff 2); [lia | lia | nia]. }
  destruct (Z.leb_spec 1024 (Z.log2 (Z.abs M) + (e + 0))) as [Hc | _]; [lia |].
  rewrite normal_shift by exact He. f_equal. lia.
Qed.

Lemma of_Z_exact (z : Z) : (Z.abs z < 2 ^ 53)%Z -> of_Z z = normal z 0.
Proof.
  intros Hz. unfold of_Z.
  rewrite binary64_exact; rewrite ?Z.pow_0_r, ?Z.mul_1_r; [reflexivity | lia | exact Hz].
Qed.

(** Whole numbers are added exactly as long as the sum stays below 2^53. *)
Lemma add_of_Z (a b : Z) :
  (Z.abs a < 2 ^ 53)%Z -> (Z.abs b < 2 ^ 53)%Z -> (Z.abs (a + b) < 2 ^ 53)%Z ->
  add (of_Z a) (of_Z b) = of_Z (a + b).
Proof.
  intros Ha Hb Hab.
  rewrite !of_Z_exact by assumption.
  destruct (normal_spec a) as (m1 & e1 & -> & He1 & Ha').
  destruct (normal_spec b) as (m2 & e2 & -> & He2 & Hb').
  cbn [add]. cbv zeta.
  assert (Hsum : ((m1 * 2 ^ (e1 - Z.min e1 e2) + m2 * 2 ^ (e2 - Z.min e1 e2))
                  * 2 ^ Z.min e1 e2 = a + b)%Z).
  { rewrite Z.mul_add_distr_r, <- !Z.mul_assoc, <- !Z.pow_add_r by lia.
    replace (e1 - Z.min e1 e2 + Z.min e1 e2)%Z with e1 by lia.
    replace (e2 - Z.min e1 e2 + Z.min e1 e2)%Z with e2 by lia.
    now rewrite <- Ha', <- Hb'. }
  rewrite binary64_exact; [now rewrite Hsum | lia | now rewrite Hsum].
Qed.

Example add_rounds_above_2_53 :
  add (of_Z (2 ^ 53)) (of_Z 1) = of_Z (2 ^ 53)
  /\ add (of_Z (2 ^ 53)) (of_Z 3) = of_Z (2 ^ 53 + 4)
  /\ add (Finite 1 (-1)) (Finite 1 (-1)) = of_Z 1.
Proof. repeat split; vm_compute; reflexivity. Qed.

(** ** The loop *)

Lemma sum_durations_nonneg (given : list Z) :
  Forall (fun d => (0 <= d)%Z) given ->
  forall count i, (0 <= nth i given 2200%Z)%Z /\ (0 <= sum_durations given i count)%Z.
Proof.
  intros Hnn.
  assert (Hnth : forall i, (0 <= nth i given 2200%Z)%Z).
  { intros i. destruct (nth_in_or_default i given 2200%Z) as [Hin | ->]; [| lia].
    rewrite Forall_forall in Hnn. now apply Hnn. }
  induction count as [| count IH]; intros i; cbn [sum_durations].
  - split; [apply Hnth | lia].
  - split; [apply Hnth |].
    pose proof (Hnth i). destruct (IH (S i)). lia.
Qed.

Lemma sum_durations_nil (count i : nat) :
  sum_durations [] i count = (2200 * Z.of_nat count)%Z.
Proof.
  revert i. induction count as [| count IH]; intros i; cbn [sum_durations].
  - reflexivity.
  - rewrite IH. replace (nth i [] 2200%Z) with 2200%Z by now destruct i.
    lia.
Qed.

Lemma duration_at_of_Z (given : list Z) (i : nat) :
  LoadingState.duration_at (Some (map of_Z given)) i = of_Z (nth i given 2200%Z).
Proof.
  unfold LoadingState.duration_at. revert i.
  induction given as [| d given IH]; intros [| i]; cbn; try reflexivity.
  apply IH.
Qed.

Lemma loop_indices (ds : option (list double)) :
  forall (count i : nat) (c : double),
    map snd (LoadingState.loop ds count i c) = seq (S i) count.
Proof.
  induction count as [| count IH]; intros i c; cbn [LoadingState.loop seq map snd].
  - reflexivity.
  - now rewrite IH.
Qed.

Lemma loop_closed_form (ds : option (list double)) (given : list Z) :
  (forall i, LoadingState.duration_at ds i = of_Z (nth i given 2200%Z)) ->
  Forall (fun d => (0 <= d)%Z) given ->
  forall (count i : nat) (c : Z),
    (0 <= c)%Z ->
    (c + sum_durations given i count < 2 ^ 53)%Z ->
    LoadingState.loop ds count i (of_Z c)
    = map (fun k => (of_Z (c + sum_durations given i (k - i)), k)) (seq (S i) count).
Proof.
  intros Hds Hnn.
  induction count as [| count IH]; intros i c Hc Hsum;
    cbn [LoadingState.loop seq map].
  - reflexivity.
  - cbn [sum_durations] in Hsum.
    destruct (sum_durations_nonneg given Hnn count (S i)) as [_ Hrest].
    destruct (sum_durations_nonneg given Hnn count i) as [Hd _].
    rewrite Hds, add_of_Z by lia.
    f_equal.
    + replace (S i - i)%nat with 1%nat by lia. cbn [sum_durations].
      now rewrite Z.add_0_r.
    + rewrite IH by lia. apply map_ext_in. intros k Hk.
      apply in_seq in Hk.
      replace (k - i)%nat with (S (k - S i)) by lia.
      cbn [sum_durations]. do 2 f_equal. lia.
Qed.

(** X18.  The loop of the effect, in closed form.  For [n] substeps it
    registers [n - 1] timers, one for each index 1, ..., n - 1 in this
    order, whatever the durations; without substeps it registers none.
    When the given durations are whole, non-negative numbers of
    milliseconds and add up to less than 2^53, the additions are exact:
    the timer of index [k] is registered with the delay that is the sum of
    the durations of the substeps 0, ..., k - 1, a duration that is not
    given counting 2200 ms; with no durations at all the delay of index
    [k] is 2200 * k ms. *)
Theorem loading_timers_closed_form :
  forall (labels : list string) (given : list Z),
    Forall (fun d => (0 <= d)%Z) given ->
    (elapsed given (List.length labels - 1) < 2 ^ 53)%Z ->
    (forall stepDurations,
        map snd (LoadingState.timers (Some labels) stepDurations)
        = seq 1 (List.length labels - 1)
        /\ LoadingState.timers None stepDurations = [])
    /\ LoadingState.timers (Some labels) (Some (map of_Z given))
       = map (fun k => (of_Z (elapsed given k), k)) (seq 1 (List.length labels - 1))
    /\ (given = [] ->
        LoadingState.timers (Some labels) None
        = map (fun k => (of_Z (2200 * Z.of_nat k), k))
            (seq 1 (List.length labels - 1))).
Proof.
  intros labels given Hnn Hsum.
  assert (Hform : forall ds,
             (forall i, LoadingState.duration_at ds i = of_Z (nth i given 2200%Z)) ->
             LoadingState.timers (Some labels) ds
             = map (fun k => (of_Z (elapsed given k), k))
                 (seq 1 (List.length labels - 1))).
  { intros ds Hds. unfold LoadingState.timers.
    destruct (Nat.eqb (List.length labels) 0) eqn:E.
    - apply Nat.eqb_eq in E. now rewrite E.
    - change (of_Z 0) with (of_Z 0%Z).
      rewrite (loop_closed_form ds given Hds Hnn) by (unfold elapsed in Hsum; lia).
      apply map_ext. intros k.
      unfold elapsed. now rewrite Nat.sub_0_r, Z.add_0_l. }
  split; [| split].
  - intros ds. split; [| reflexivity].
    unfold LoadingState.timers.
    destruct (Nat.eqb (List.length labels) 0) eqn:E.
    + apply Nat.eqb_eq in E. now rewrite E.
    + apply loop_indices.
  - apply Hform. intros i. apply duration_at_of_Z.
  - intros ->. rewrite Hform.
    + apply map_ext. intros k. unfold elapsed. now rewrite sum_durations_nil.
    + intros i. cbn. now destruct i.
Qed.

Lemma loading_timers_closed_form_witness :
  let labels := ["Preparing prompts"; "Composing track 1 of 3";
                 "Composing track 2 of 3"; "Composing track 3 of 3"] in
  let given := [3000; 18000; 18000]%Z in
  Forall (fun d => (0 <= d)%Z) given
  /\ (elapsed given (List.length labels - 1) < 2 ^ 53)%Z
  /\ LoadingState.timers (Some labels) (Some (map of_Z given))
     = [(of_Z 3000, 1%nat); (of_Z 21000, 2%nat); (of_Z 39000, 3%nat)].
Proof.
  intros labels given.
  assert (Hnn : Forall (fun d => (0 <= d)%Z) given)
    by (repeat constructor; lia).
  assert (Hsum : (elapsed given (List.length labels - 1) < 2 ^ 53)%Z)
    by (vm_compute; reflexivity).
  split; [exact Hnn |]. split; [exact Hsum |].
  exact (proj1 (proj2 (loading_timers_closed_form labels given Hnn Hsum))).
Defined.

(* ================================================================== *)
(** * The audio player: the download links *)
(* ================================================================== *)

Lemma string_app_assoc (a b c : string) : ((a ++ b) ++ c = a ++ (b ++ c))%string.
Proof.
  induction a as [| x a IH]; cbn; [reflexivity | now rewrite IH].
Qed.

Lemma string_length_app (a b : string) :
  String.length (a ++ b) = (String.length a + String.length b)%nat.
Proof.
  induction a as [| x a IH]; cbn; [reflexivity | now rewrite IH].
Qed.

Lemma substring_app_left (a b : string) :
  String.substring 0 (String.length a) (a ++ b) = a.
Proof.
  induction a as [| x a IH]; cbn.
  - now destruct b.
  - now rewrite IH.
Qed.

Lemma split_nonempty (sep : ascii) (s : string) : JsString.split sep s <> [].
Proof.
  destruct s as [| c r]; cbn; [discriminate |].
  destruct (Ascii.eqb c sep); [discriminate |].
  destruct (JsString.split sep r); discriminate.
Qed.

(** Splitting distributes over a separator. *)
Lemma split_app (sep : ascii) (a b : string) :
  JsString.split sep (a ++ String sep b)
  = (JsString.split sep a ++ JsString.split sep b)%list.
Proof.
  induction a as [| c a IH]; cbn.
  - now rewrite Ascii.eqb_refl.
  - rewrite IH. destruct (Ascii.eqb c sep); [reflexivity |].
    pose proof (split_nonempty sep a) as Hne.
    destruct (JsString.split sep a) as [| h t]; [contradiction | reflexivity].
Qed.

Lemma split_slash_free (s : string) :
  slash_free s = true -> JsString.split "/" s = [s].
Proof.
  induction s as [| c r IH]; cbn; [reflexivity |].
  intros H. apply andb_true_iff in H. destruct H as [Hc Hr].
  apply negb_true_iff in Hc. rewrite Hc, (IH Hr). reflexivity.
Qed.

Lemma at_index_second_to_last {A : Type} (xs : list A) (x y : A) :
  JsString.at_index (xs ++ [x; y])
    (Z.of_nat (List.length (xs ++ [x; y])) - 2)
  = Some x.
Proof.
  unfold JsString.at_index. rewrite length_app. cbn [List.length].
  replace (Z.of_nat (List.length xs + 2) - 2)%Z with (Z.of_nat (List.length xs)) by lia.
  destruct (Z.of_nat (List.length xs) <? 0)%Z eqn:E; [apply Z.ltb_lt in E; lia |].
  rewrite Nat2Z.id, nth_error_app2 by lia.
  now rewrite Nat.sub_diag.
Qed.

(** An occurrence of "/api" cannot start inside [s] and end in a
    following "/api...". *)
Lemma prefix_api_app (s tail : string) :
  s <> "" ->
  String.prefix "/api" s = false ->
  String.prefix "/api" (s ++ "/api" ++ tail) = false.
Proof.
  intros Hne H.
  destruct s as [| c0 s]; [contradiction |].
  cbn [String.prefix String.append] in *.
  destruct (ascii_dec "/" c0); [| reflexivity].
  destruct s as [| c1 s]; cbn [String.prefix String.append] in *; [reflexivity |].
  destruct (ascii_dec "a" c1); [| reflexivity].
  destruct s as [| c2 s]; cbn [String.prefix String.append] in *; [reflexivity |].
  destruct (ascii_dec "p" c2); [| reflexivity].
  destruct s as [| c3 s]; cbn [String.prefix String.append] in *; [reflexivity |].
  destruct (ascii_dec "i" c3); [| reflexivity].
  destruct s; discriminate H.
Qed.

Lemma find_from_api_app (base tail : string) :
  JsString.find_from "/api" base = None ->
  JsString.find_from "/api" (base ++ "/api" ++ tail) = Some (String.length base).
Proof.
  induction base as [| c base IH]; intros H.
  - now destruct tail.
  - assert (Hp : String.prefix "/api" (String c base) = false).
    { cbn [JsString.find_from] in H.
      destruct (String.prefix "/api" (String c base)); [discriminate H | reflexivity]. }
    assert (Hrest : JsString.find_from "/api" base = None).
    { cbn [JsString.find_from] in H. rewrite Hp in H.
      destruct (JsString.find_from "/api" base); [discriminate H | reflexivity]. }
    change (String c base ++ "/api" ++ tail)%string
      with (String c (base ++ "/api" ++ tail)).
    cbn [JsString.find_from].
    pose proof (prefix_api_app (String c base) tail ltac:(discriminate) Hp) as Hq.
    change (String c base ++ "/api" ++ tail)%string
      with (String c (base ++ "/api" ++ tail)) in Hq.
    rewrite Hq, (IH Hrest). reflexivity.
Qed.

Lemma find_from_slash_free (s : string) :
  slash_free s = true -> JsString.find_from "/api" s = None.
Proof.
  induction s as [| c r IH]; intros H.
  - reflexivity.
  - cbn in H. apply andb_true_iff in H. destruct H as [Hc Hr].
    apply negb_true_iff, Ascii.eqb_neq in Hc.
    cbn [JsString.find_from String.prefix].
    destruct (ascii_dec "/" c) as [E | E]; [now elim Hc |].
    now rewrite (IH Hr).
Qed.

Lemma substring_to_minus_one (s : string) : JsString.substring s 0 (-1) = "".
Proof.
  unfold JsString.substring.
  replace (Z.max 0 (Z.min 0 (Z.of_nat (String.length s)))) with 0%Z by lia.
  replace (Z.max 0 (Z.min (-1) (Z.of_nat (String.length s)))) with 0%Z by lia.
  cbn. now destruct s.
Qed.

(** X20.  Round trip of the download links.  For a playback URL of the shape
    <base>/api/music/download/<id>/<format>, where "/api" does not occur
    in the base and the identifier and the format contain no slash and
    the identifier is not empty, the player recovers the base and the
    identifier, its two links are that URL with the formats mp3 and wav,
    and for the format mp3 the MP3 link is the playback URL itself. *)
Theorem download_links_round_trip :
  forall base id format : string,
    JsString.indexOf base "/api" = (-1)%Z ->
    slash_free id = true ->
    id <> "" ->
    slash_free format = true ->
    let audioUrl := base ++ "/api/music/download/" ++ id ++ "/" ++ format in
    AudioPlayer.apiBase audioUrl = base
    /\ AudioPlayer.fileId audioUrl = id
    /\ AudioPlayer.mp3_href audioUrl = base ++ "/api/music/download/" ++ id ++ "/mp3"
    /\ AudioPlayer.wav_href audioUrl = base ++ "/api/music/download/" ++ id ++ "/wav"
    /\ (format = "mp3" -> AudioPlayer.mp3_href audioUrl = audioUrl).
Proof.
  intros base id format Hbase Hid Hne Hfmt audioUrl.
  assert (Hfind : JsString.find_from "/api" base = None).
  { unfold JsString.indexOf in Hbase.
    destruct (JsString.find_from "/api" base); [lia | reflexivity]. }
  assert (Hb : AudioPlayer.apiBase audioUrl = base).
  { unfold AudioPlayer.apiBase, JsString.indexOf. subst audioUrl.
    change ("/api/music/download/" ++ id ++ "/" ++ format)%string
      with ("/api" ++ ("/music/download/" ++ id ++ "/" ++ format))%string.
    rewrite (find_from_api_app base _ Hfind).
    unfold JsString.substring. rewrite string_length_app.
    replace (Z.max 0 (Z.min 0 _)) with 0%Z by lia.
    replace (Z.max 0 (Z.min (Z.of_nat (String.length base)) _))
      with (Z.of_nat (String.length base)) by lia.
    replace (Z.min 0 (Z.of_nat (String.length base))) with 0%Z by lia.
    replace (Z.max 0 (Z.of_nat (String.length base)))
      with (Z.of_nat (String.length base)) by lia.
    rewrite Z.sub_0_r, Nat2Z.id. cbn [Z.to_nat].
    apply substring_app_left. }
  assert (Hf : AudioPlayer.fileId audioUrl = id).
  { unfold AudioPlayer.fileId, AudioPlayer.urlParts. subst audioUrl.
    change (base ++ "/api/music/download/" ++ id ++ "/" ++ format)%string
      with (base ++ "/api/music/download" ++ String "/" (id ++ String "/" format))%string.
    rewrite <- string_app_assoc, !split_app.
    rewrite (split_slash_free id Hid), (split_slash_free format Hfmt).
    cbn [app]. rewrite at_index_second_to_last.
    cbn. apply String.eqb_neq in Hne. now rewrite Hne. }
  split; [exact Hb |]. split; [exact Hf |].
  unfold AudioPlayer.mp3_href, AudioPlayer.wav_href, AudioPlayer.download_href.
  rewrite Hb, Hf.
  split; [reflexivity |]. split; [reflexivity |].
  intros ->. reflexivity.
Qed.

Lemma download_links_round_trip_witness :
  let audioUrl := "http://localhost:8000/api/music/download/f-1/mp3" in
  JsString.indexOf "http://localhost:8000" "/api" = (-1)%Z
  /\ AudioPlayer.apiBase audioUrl = "http://localhost:8000"
  /\ AudioPlayer.fileId audioUrl = "f-1"
  /\ AudioPlayer.mp3_href audioUrl = audioUrl
  /\ AudioPlayer.wav_href audioUrl = "http://localhost:8000/api/music/download/f-1/wav".
Proof.
  intro audioUrl.
  split; [reflexivity |].
  destruct (download_links_round_trip "http://localhost:8000" "f-1" "mp3"
              eq_refl eq_refl ltac:(discriminate) eq_refl)
    as (Hb & Hf & Hm & Hw & Hrt).
  split; [exact Hb |]. split; [exact Hf |].
  split; [exact (Hrt eq_refl) | exact Hw].
Defined.

(** X21.  A playback URL without a slash.  The player then finds neither a base
    nor an identifier: both are empty and the MP3 link is the relative
    path /api/music/download//mp3, whatever the URL was. *)
Theorem download_links_without_slash :
  forall audioUrl : string,
    slash_free audioUrl = true ->
    AudioPlayer.apiBase audioUrl = ""
    /\ AudioPlayer.fileId audioUrl = ""
    /\ AudioPlayer.mp3_href audioUrl = "/api/music/download//mp3".
Proof.
  intros audioUrl Hfree.
  assert (Hb : AudioPlayer.apiBase audioUrl = "").
  { unfold AudioPlayer.apiBase, JsString.indexOf.
    rewrite (find_from_slash_free audioUrl Hfree). apply substring_to_minus_one. }
  assert (Hf : AudioPlayer.fileId audioUrl = "").
  { unfold AudioPlayer.fileId, AudioPlayer.urlParts.
    rewrite (split_slash_free audioUrl Hfree). reflexivity. }
  split; [exact Hb |]. split; [exact Hf |].
  unfold AudioPlayer.mp3_href, AudioPlayer.download_href. now rewrite Hb, Hf.
Qed.

Lemma download_links_without_slash_witness :
  slash_free "track.mp3" = true
  /\ AudioPlayer.mp3_href "track.mp3" = "/api/music/download//mp3".
Proof.
  split; [reflexivity |].
  exact (proj2 (proj2 (download_links_without_slash "track.mp3" eq_refl))).
Defined.
